(** * The memory manager of general/mm.cpp

    A shallow embedding of the ledger of [mfem::mm] (registered host buffers,
    their device mirrors and the cache of interior pointers) and of the
    operations [Insert], [Erase], [Known], [Alias], [Ptr], [Push], [Pull] and
    [memcpy], followed by the properties of the specification that concern
    them.

    Conventions of the embedding.
    - Addresses ([void*], [char*]) and sizes ([size_t], [long]) are integers
      of [Z]; [nullptr] is [0].  C++ defines pointer arithmetic only inside
      one object, so [b_ptr + bytes] and [ptr - base] are plain sums and
      differences.
    - [maps.memories] and [maps.aliases] are [std::unordered_map]s with
      address keys: finite maps [gmap Z _].
    - An [mm::alias] is an object made by [new]; [maps.aliases] and the list
      [mem.aliases] hold its address.  The objects live in [heap]; the address
      [new] returns is a parameter of the development ([operator_new]).
    - [alias::mem] points into the node of [maps.memories] that holds the
      record.  Such a pointer is a [mem_ref]: the key of the record together
      with the serial number its node got at [Insert].  Following it after
      the record was erased is undefined behaviour ([Undefined]).
    - The backend primitives ([CuMemAlloc], [CuMemcpyHtoD], ...) are not part
      of mm.cpp.  Each call is recorded in [trace]; the pointer [CuMemAlloc]
      stores is a parameter.
    - [mfem_error] and a failed [assert] abort: [Fatal], with the world as it
      was at that moment. *)

From Stdlib Require Import ZArith.
From stdpp Require Import base strings gmap list sorting.

Open Scope Z_scope.

(** ** Configuration *)

(** The queries of [Device] that mm.cpp reads. *)
Record Device := {
  UsingMM : bool;
  DeviceHasBeenEnabled : bool;
  DeviceDisabled : bool;
  UsingHost : bool;
  UsingDevice : bool;
  UsingOcca : bool
}.

(** The preprocessor symbols that select code in mm.cpp. [MFEM_DEBUG] turns
    [MFEM_ASSERT] on, [NDEBUG] turns [assert] off. *)
Record Build := {
  MFEM_DEBUG : bool;
  MFEM_DEBUG_MM : bool;
  NDEBUG : bool
}.

(** ** Data *)

Record mem_ref := { ref_key : Z; ref_node : N }.

Record memory := {
  bytes : Z;
  h_ptr : Z;
  d_ptr : Z;
  mem_aliases : list Z;
  host : bool;
  node : N
}.

Record alias := { mem : mem_ref; offset : Z }.

Record ledger := {
  memories : gmap Z memory;
  aliases : gmap Z Z
}.

Inductive backend_call :=
| CuMemAlloc_call (size dptr : Z)
| CuMemcpyHtoD_call (dst src size : Z)
| CuMemcpyDtoH_call (dst src size : Z)
| CuMemcpyDtoD_call (dst src size : Z)
| CuMemcpyDtoDAsync_call (dst src size : Z)
| std_memcpy_call (dst src size : Z).

Record world := {
  maps : ledger;
  heap : gmap Z alias;
  nodes : N;
  trace : list backend_call
}.

Definition is_copy (c : backend_call) : bool :=
  match c with CuMemAlloc_call _ _ => false | _ => true end.

(** ** Outcomes *)

Inductive result (A : Type) : Type :=
| Ok (a : A) (w : world)
| Fatal (msg : string) (w : world)
| OutOfRange (w : world)
| Undefined.
Arguments Ok {A} a w.
Arguments Fatal {A} msg w.
Arguments OutOfRange {A} w.
Arguments Undefined {A}.

Definition M (A : Type) : Type := world → result A.

Definition ret {A} (a : A) : M A := fun w => Ok a w.

Definition bind {A B} (c : M A) (k : A → M B) : M B := fun w =>
  match c w with
  | Ok a w1 => k a w1
  | Fatal msg w1 => Fatal msg w1
  | OutOfRange w1 => OutOfRange w1
  | Undefined => Undefined
  end.

Definition mfem_error {A} (msg : string) : M A := fun w => Fatal msg w.

Notation "'let*' x ':=' c1 'in' c2" := (bind c1 (fun x => c2))
  (at level 10, x name, c1 at level 100, c2 at level 200).

Definition is_fatal {A} (r : result A) : bool :=
  match r with Fatal _ _ => true | _ => false end.

(** ** Updates of the world *)

Definition set_memories (f : gmap Z memory → gmap Z memory) (w : world) : world :=
  {| maps := {| memories := f (memories (maps w)); aliases := aliases (maps w) |};
     heap := heap w; nodes := nodes w; trace := trace w |}.

Definition set_aliases (f : gmap Z Z → gmap Z Z) (w : world) : world :=
  {| maps := {| memories := memories (maps w); aliases := f (aliases (maps w)) |};
     heap := heap w; nodes := nodes w; trace := trace w |}.

Definition set_heap (f : gmap Z alias → gmap Z alias) (w : world) : world :=
  {| maps := maps w; heap := f (heap w); nodes := nodes w; trace := trace w |}.

Definition next_node (w : world) : world :=
  {| maps := maps w; heap := heap w; nodes := N.succ (nodes w); trace := trace w |}.

Definition call (c : backend_call) (w : world) : world :=
  {| maps := maps w; heap := heap w; nodes := nodes w; trace := trace w ++ [c] |}.

Definition with_d_ptr (d : Z) (m : memory) : memory :=
  {| bytes := bytes m; h_ptr := h_ptr m; d_ptr := d;
     mem_aliases := mem_aliases m; host := host m; node := node m |}.

Definition with_host (b : bool) (m : memory) : memory :=
  {| bytes := bytes m; h_ptr := h_ptr m; d_ptr := d_ptr m;
     mem_aliases := mem_aliases m; host := b; node := node m |}.

Definition with_aliases (l : list Z) (m : memory) : memory :=
  {| bytes := bytes m; h_ptr := h_ptr m; d_ptr := d_ptr m;
     mem_aliases := l; host := host m; node := node m |}.

(** [m.emplace(k, v)]: inserts only where the key is free. *)
Definition emplace {V} (k : Z) (v : V) (m : gmap Z V) : gmap Z V :=
  match m !! k with Some _ => m | None => <[k:=v]> m end.

(** [*r] for a pointer to a record of [maps.memories]. *)
Definition deref (l : ledger) (r : mem_ref) : option memory :=
  match memories l !! ref_key r with
  | Some m => if (node m =? ref_node r)%N then Some m else None
  | None => None
  end.

(** [r1 == r2] for two such pointers. *)
Definition same_ref (r1 r2 : mem_ref) : bool :=
  (ref_key r1 =? ref_key r2) && (ref_node r1 =? ref_node r2)%N.

(** Modelled from the spec: the constructor [memory(ptr, bytes)] of mm.hpp,
    which is not among the sources; a new record is HostValid, has no device
    pointer and no alias. *)
Definition new_memory (ptr size : Z) (n : N) : memory :=
  {| bytes := size; h_ptr := ptr; d_ptr := 0; mem_aliases := []; host := true;
     node := n |}.

(** ** Concrete configurations

    Used to run the operations on explicit inputs. *)

Definition release_build : Build :=
  {| MFEM_DEBUG := false; MFEM_DEBUG_MM := false; NDEBUG := true |}.

Definition debug_build : Build :=
  {| MFEM_DEBUG := true; MFEM_DEBUG_MM := true; NDEBUG := false |}.

(** The memory manager compiled out. *)
Definition mm_off : Device :=
  {| UsingMM := false; DeviceHasBeenEnabled := false; DeviceDisabled := true;
     UsingHost := true; UsingDevice := false; UsingOcca := false |}.

(** A device was set up; the code runs on the host. *)
Definition device_idle : Device :=
  {| UsingMM := true; DeviceHasBeenEnabled := true; DeviceDisabled := false;
     UsingHost := true; UsingDevice := false; UsingOcca := false |}.

(** A device was set up; the code runs on it. *)
Definition device_active : Device :=
  {| UsingMM := true; DeviceHasBeenEnabled := true; DeviceDisabled := false;
     UsingHost := false; UsingDevice := true; UsingOcca := false |}.

(** Alias objects at 4096, 4112, ...; device buffers at 65536, 65792, ... *)
Definition bump_new (w : world) : Z := 4096 + 16 * Z.of_nat (size (heap w)).

Definition bump_alloc (w : world) (_ : Z) : Z :=
  65536 + 256 * Z.of_nat (length (trace w)).

Definition dst_of (d _ _ : Z) : Z := d.

Definition empty_world : world :=
  {| maps := {| memories := ∅; aliases := ∅ |}; heap := ∅; nodes := 0%N;
     trace := [] |}.

(** The world after [Insert(ptr, size)] on the empty one. *)
Definition registered (ptr size : Z) : world :=
  {| maps := {| memories := {[ ptr := new_memory ptr size 0 ]}; aliases := ∅ |};
     heap := ∅; nodes := 1%N; trace := [] |}.

(** The world after [Insert(ptr, size)] and a first [Ptr(ptr)] on the active
    device. *)
Definition mirrored (ptr size : Z) : world :=
  {| maps := {| memories :=
                  {[ ptr := with_host false
                              (with_d_ptr 65536 (new_memory ptr size 0)) ]};
                aliases := ∅ |};
     heap := ∅; nodes := 1%N;
     trace := [CuMemAlloc_call size 65536; CuMemcpyHtoD_call 65536 ptr size] |}.

(** The world after [Insert(100, 100)] and a first resolution of the interior
    pointer [140]. *)
Definition aliased : world :=
  {| maps := {| memories :=
                  {[ 100 := with_aliases [4096] (new_memory 100 100 0) ]};
                aliases := {[ 140 := 4096 ]} |};
     heap := {[ 4096 := {| mem := {| ref_key := 100; ref_node := 0 |};
                           offset := 40 |} ]};
     nodes := 1%N; trace := [] |}.

(** [aliased] after [Erase(100)]: the entry of [140] is still there. *)
Definition stale : world :=
  {| maps := {| memories := ∅; aliases := {[ 140 := 4096 ]} |};
     heap := heap aliased; nodes := 1%N; trace := [] |}.

(** [stale] after [Insert(140, 10)]. *)
Definition shadowed : world :=
  {| maps := {| memories := {[ 140 := new_memory 140 10 1 ]};
                aliases := {[ 140 := 4096 ]} |};
     heap := heap aliased; nodes := 2%N; trace := [] |}.

(** [stale] after [Insert(100, 100)]: the buffer is registered again, in a
    new node, and the entry of [140] still points to the node that was
    erased. *)
Definition reinserted : world :=
  {| maps := {| memories := {[ 100 := new_memory 100 100 1 ]};
                aliases := {[ 140 := 4096 ]} |};
     heap := heap aliased; nodes := 2%N; trace := [] |}.

(** ** Words of the specification *)

Inductive residency := HostValid | DeviceValid.

Definition resident (m : memory) : residency :=
  if host m then HostValid else DeviceValid.

(** The world in which the record of [ptr] became [m'] and the backend was
    called with [cs]; nothing else changed. *)
Definition transition (ptr : Z) (m' : memory) (cs : list backend_call)
    (w : world) : world :=
  {| maps := {| memories := <[ptr := m']> (memories (maps w));
                aliases := aliases (maps w) |};
     heap := heap w; nodes := nodes w; trace := trace w ++ cs |}.

(** The backend calls of [w'] that [w] does not have. *)
Definition calls_since (w w' : world) : list backend_call :=
  drop (length (trace w)) (trace w').

Definition copies (cs : list backend_call) : nat := length (filter is_copy cs).

(** ** Further vocabulary *)

(** [aliased] after a first [Ptr(140)] on the active device: the owner
    [100] has the mirror [65536] and is DeviceValid. *)
Definition aliased_mirrored : world :=
  transition 100
    (with_host false
       (with_d_ptr 65536 (with_aliases [4096] (new_memory 100 100 0))))
    [CuMemAlloc_call 100 65536; CuMemcpyHtoD_call 65536 100 100] aliased.

(** A device was set up with the OCCA backend. *)
Definition occa_device : Device :=
  {| UsingMM := true; DeviceHasBeenEnabled := true; DeviceDisabled := false;
     UsingHost := false; UsingDevice := true; UsingOcca := true |}.

(** The world an outcome carries, if it carries one. *)
Definition world_of {A} (r : result A) : option world :=
  match r with
  | Ok _ w | Fatal _ w | OutOfRange w => Some w
  | Undefined => None
  end.

(** What [Insert] fixes of a record: its size, its host pointer, the node
    that holds it. *)
Definition buffer_of (m : memory) : Z * Z * N := (bytes m, h_ptr m, node m).

(** [w'] has the registered buffers of [w], no more and no fewer. *)
Definition same_buffers (w w' : world) : Prop :=
  ∀ k, buffer_of <$> memories (maps w') !! k =
       buffer_of <$> memories (maps w) !! k.

(** Every entry of [maps.aliases] leads to an alias object, and its key is
    the base of the owner plus the offset. *)
Definition aliases_anchored (w : world) : Prop :=
  ∀ p a, aliases (maps w) !! p = Some a →
    ∃ al, heap w !! a = Some al ∧ ref_key (mem al) + offset al = p.

(** [w'] differs from [w] in records and trace only: the same cached
    aliases, the same alias objects, the same registered buffers. *)
Definition memory_only (w w' : world) : Prop :=
  aliases (maps w') = aliases (maps w) ∧ heap w' = heap w ∧ same_buffers w w'.

(** A computation that, however it ends, leaves the registered buffers as
    they were. *)
Definition keeps_buffers {A} (c : M A) : Prop :=
  ∀ w w', world_of (c w) = Some w' → same_buffers w w'.

(** ** [DumpMode]

    The function prints the configuration when the environment variable
    [DBG] is set and the configuration is not the one it printed last.  Its
    three [static] variables are the state; the value of [getenv] and the
    eight queries of [Device] are inputs; the output is the number it prints
    ([mode.to_ulong()]), the text around it being fixed by the same queries.
    A [std::bitset<9>] is the integer of its bits. *)

Record DumpState := { env_ini : bool; env_dbg : bool; mode : Z }.

Definition DumpState_init : DumpState :=
  {| env_ini := false; env_dbg := false; mode := 0 |}.

Definition bitset_set (b pos : Z) : Z := Z.lor b (Z.shiftl 1 pos).

Definition DumpMode_cfg (dev : Device) (DeviceEnabled UsingCuda : bool) : Z :=
  let cfg := 0 in
  let cfg := bitset_set cfg (if UsingMM dev then 8 else 0) in
  let cfg := bitset_set cfg (if DeviceHasBeenEnabled dev then 7 else 0) in
  let cfg := bitset_set cfg (if DeviceEnabled then 6 else 0) in
  let cfg := bitset_set cfg (if DeviceDisabled dev then 5 else 0) in
  let cfg := bitset_set cfg (if UsingHost dev then 4 else 0) in
  let cfg := bitset_set cfg (if UsingDevice dev then 3 else 0) in
  let cfg := bitset_set cfg (if UsingCuda then 2 else 0) in
  let cfg := bitset_set cfg (if UsingOcca dev then 1 else 0) in
  Z.shiftr cfg 1.

Definition DumpMode (getenv_DBG : bool) (dev : Device)
    (DeviceEnabled UsingCuda : bool) (s : DumpState) : DumpState * option Z :=
  let s1 := if negb (env_ini s)
            then {| env_ini := true; env_dbg := getenv_DBG; mode := mode s |}
            else s in
  if negb (env_dbg s1) then (s1, None)
  else
    let cfg := DumpMode_cfg dev DeviceEnabled UsingCuda in
    if cfg =? mode s1 then (s1, None)
    else ({| env_ini := env_ini s1; env_dbg := env_dbg s1; mode := cfg |},
          Some cfg).

(** ** fem/lor/lor_ams.cpp: the edge-to-vertex tables

    [Form2DEdgeToVertex] and [Form3DEdgeToVertex] fill a 2 x nedge matrix:
    column [iedge] receives the two vertices of the edge.  The embedding
    gives the writes of the loops in their order, one [(iedge, (iv0, iv1))]
    for the pair of assignments of an iteration.  [dim] and [order] are
    members of the class; [/] and [%] are the truncating [Z.quot] and
    [Z.rem].

    The [int]s of the source are integers of [Z] here.  That is the code
    only as long as no [int] overflows, which C++ leaves undefined: up to
    order 32767 in two dimensions and 893 in three ([nedge] exceeds
    [INT_MAX] from 32768 and 894 on).  The properties below are stated for
    these orders and show that [nedge], the columns and the vertices stay
    at or below [INT_MAX]. *)

Definition INT_MAX : Z := 2147483647.

(** [nedge]: [pow] is applied to small integers and is exact; its
    conversion to [int] is defined where the value is at most [INT_MAX]. *)
Definition nedge (dim o : Z) : Z := dim * o * (o + 1) ^ (dim - 1).

Definition Form2DEdgeToVertex (dim order : Z) : list (Z * (Z * Z)) :=
  let o := order in
  let op1 := o + 1 in
  c ← seqZ 0 dim;
  let nx := if c =? 0 then o else op1 in
  i2 ← seqZ 0 op1;
  i1 ← seqZ 0 o;
  let ix := if c =? 0 then i1 else i2 in
  let iy := if c =? 0 then i2 else i1 in
  let iedge := ix + iy * nx + c * o * op1 in
  let ix1 := if c =? 0 then ix + 1 else ix in
  let iy1 := if c =? 1 then iy + 1 else iy in
  let iv0 := ix + iy * op1 in
  let iv1 := ix1 + iy1 * op1 in
  [(iedge, (iv0, iv1))].

Definition Form3DEdgeToVertex (dim order : Z) : list (Z * (Z * Z)) :=
  let o := order in
  let op1 := o + 1 in
  c ← seqZ 0 dim;
  let nx := if c =? 0 then o else op1 in
  let ny := if c =? 1 then o else op1 in
  i ← seqZ 0 (o * op1 * op1);
  let ix := Z.rem i nx in
  let iy := Z.rem (Z.quot i nx) ny in
  let iz := Z.quot (Z.quot i nx) ny in
  let iedge := ix + iy * nx + iz * nx * ny + c * o * op1 * op1 in
  let ix1 := if c =? 0 then ix + 1 else ix in
  let iy1 := if c =? 1 then iy + 1 else iy in
  let iz1 := if c =? 2 then iz + 1 else iz in
  let iv0 := ix + iy * op1 + iz * op1 * op1 in
  let iv1 := ix1 + iy1 * op1 + iz1 * op1 * op1 in
  [(iedge, (iv0, iv1))].

(** ** fem/lininteg_domain.cpp: the choice of the kernel

    [LaunchDeviceKernel] picks an instance of one of the two kernel
    templates from the dimension of the mesh and the numbers [d] of degrees
    of freedom and [q] of quadrature points in one direction; the template
    arguments [0, 0] are the defaults, for which the kernel sizes its arrays
    with [MAX_D1D] and [MAX_Q1D]. *)

Inductive kernel :=
| DLFEvalAssemble2D (T_D1D T_Q1D : Z)
| DLFEvalAssemble3D (T_D1D T_Q1D : Z).

Definition LaunchDeviceKernel_ker (dim d q : Z) : kernel :=
  let ker := if dim =? 2 then DLFEvalAssemble2D 0 0
             else DLFEvalAssemble3D 0 0 in
  let ker :=
    if dim =? 2 then
      let ker := if (d =? 2) && (q =? 2) then DLFEvalAssemble2D 2 2 else ker in
      let ker := if (d =? 3) && (q =? 3) then DLFEvalAssemble2D 3 3 else ker in
      let ker := if (d =? 4) && (q =? 4) then DLFEvalAssemble2D 4 4 else ker in
      let ker := if (d =? 5) && (q =? 5) then DLFEvalAssemble2D 5 5 else ker in
      let ker := if (d =? 2) && (q =? 3) then DLFEvalAssemble2D 2 3 else ker in
      let ker := if (d =? 3) && (q =? 4) then DLFEvalAssemble2D 3 4 else ker in
      let ker := if (d =? 4) && (q =? 5) then DLFEvalAssemble2D 4 5 else ker in
      let ker := if (d =? 5) && (q =? 6) then DLFEvalAssemble2D 5 6 else ker in
      ker
    else ker in
  let ker :=
    if dim =? 3 then
      let ker := if (d =? 2) && (q =? 2) then DLFEvalAssemble3D 2 2 else ker in
      let ker := if (d =? 3) && (q =? 3) then DLFEvalAssemble3D 3 3 else ker in
      let ker := if (d =? 4) && (q =? 4) then DLFEvalAssemble3D 4 4 else ker in
      let ker := if (d =? 5) && (q =? 5) then DLFEvalAssemble3D 5 5 else ker in
      let ker := if (d =? 2) && (q =? 3) then DLFEvalAssemble3D 2 3 else ker in
      let ker := if (d =? 3) && (q =? 4) then DLFEvalAssemble3D 3 4 else ker in
      let ker := if (d =? 4) && (q =? 5) then DLFEvalAssemble3D 4 5 else ker in
      let ker := if (d =? 5) && (q =? 6) then DLFEvalAssemble3D 5 6 else ker in
      ker
    else ker in
  ker.

Definition template_sizes (k : kernel) : Z * Z :=
  match k with
  | DLFEvalAssemble2D D Q | DLFEvalAssemble3D D Q => (D, Q)
  end.

Definition is_2D (k : kernel) : bool :=
  match k with DLFEvalAssemble2D _ _ => true | _ => false end.

(** Side conditions on explicit inputs. *)
Ltac evaluated :=
  first [reflexivity | vm_compute; reflexivity | simpl; lia | vm_compute; lia].

Section MM.

Variable cfg : Build.

(** The address returned by [new mm::alias]. *)
Variable operator_new : world → Z.

(** The pointer [CuMemAlloc(&d_ptr, bytes)] leaves in [d_ptr] ([0] when it
    leaves it null). *)
Variable CuMemAlloc : world → Z → Z.

(** The pointers [CuMemcpyDtoD] and [CuMemcpyDtoDAsync] return. *)
Variable CuMemcpyDtoD : Z → Z → Z → Z.
Variable CuMemcpyDtoDAsync : Z → Z → Z → Z.

(** ** Ledger *)

Definition Known (l : ledger) (ptr : Z) : bool :=
  match memories l !! ptr with Some _ => true | None => false end.

Fixpoint IsAlias_scan (l : list (Z * memory)) (ptr : Z) : Z :=
  match l with
  | [] => 0
  | (b_ptr, m) :: rest =>
      if b_ptr >? ptr then IsAlias_scan rest ptr
      else if ptr <? b_ptr + bytes m then b_ptr
      else IsAlias_scan rest ptr
  end.

(** The loop of [IsAlias] visits the records in the order of the container,
    which C++ leaves open; here it is the order of [map_to_list].  The order
    matters only where two registered regions contain [ptr]. *)
Definition IsAlias (ptr : Z) : M Z := fun w =>
  if MFEM_DEBUG cfg && Known (maps w) ptr
  then Fatal "Ptr is an already known address!" w
  else Ok (IsAlias_scan (map_to_list (memories (maps w))) ptr) w.

(** The loop of the [MFEM_DEBUG_MM] block: [Some true] when an alias of the
    same record has the same offset, [None] when an address of the list is
    not an alias object. *)
Fixpoint same_offset (hp : gmap Z alias) (this : mem_ref) (off : Z)
    (l : list Z) : option bool :=
  match l with
  | [] => Some false
  | a :: rest =>
      match hp !! a with
      | None => None
      | Some o =>
          if same_ref (mem o) this && (offset o =? off) then Some true
          else same_offset hp this off rest
      end
  end.

Definition InsertAlias (base ptr : Z) : M Z := fun w =>
  match memories (maps w) !! base with
  | None => OutOfRange w
  | Some m =>
      let this := {| ref_key := base; ref_node := node m |} in
      let off := ptr - base in
      let a := operator_new w in
      let w1 := set_aliases (emplace ptr a)
                  (set_heap <[a := {| mem := this; offset := off |}]> w) in
      if MFEM_DEBUG_MM cfg then
        let sorted := merge_sort Z.le (mem_aliases m) in
        let w2 := set_memories (alter (with_aliases sorted) base) w1 in
        match same_offset (heap w2) this off sorted with
        | None => Undefined
        | Some true => Fatal "a->offset == offset" w2
        | Some false =>
            Ok ptr (set_memories (alter (with_aliases (sorted ++ [a])) base) w2)
        end
      else
        Ok ptr (set_memories
                  (alter (with_aliases (mem_aliases m ++ [a])) base) w1)
  end.

Definition Alias (ptr : Z) : M bool := fun w =>
  match aliases (maps w) !! ptr with
  | Some _ => Ok true w
  | None =>
      (let* base := IsAlias ptr in
       if base =? 0 then ret false
       else let* _ := InsertAlias base ptr in ret true) w
  end.

(** [DumpMode] only prints the configuration and is left out. *)
Definition Insert (dev : Device) (ptr size : Z) : M Z := fun w =>
  if negb (UsingMM dev) then Ok ptr w
  else if Known (maps w) ptr
  then Fatal "Trying to add an already present address!" w
  else Ok ptr (next_node
                 (set_memories (emplace ptr (new_memory ptr size (nodes w))) w)).

(** [maps.aliases.erase(alias)] is given the element of [mem.aliases], the
    address of an alias object; converted to [const void*] it is the key that
    is erased. *)
Definition Erase (dev : Device) (ptr : Z) : M Z := fun w =>
  if negb (UsingMM dev) then Ok ptr w
  else if negb (Known (maps w) ptr)
  then Fatal "Trying to erase an unknown pointer!" w
  else
    match memories (maps w) !! ptr with
    | None => OutOfRange w
    | Some m =>
        let w1 := set_aliases
                    (fun al => foldl (fun acc a => delete a acc) al (mem_aliases m))
                    w in
        let w2 := set_memories (alter (with_aliases []) ptr) w1 in
        Ok ptr (set_memories (delete ptr) w2)
    end.

(** ** Residency engine *)

Definition MmDeviceIniFilter (dev : Device) : M bool := fun w =>
  if negb (UsingMM dev) then Ok true w
  else if DeviceDisabled dev then Ok true w
  else if negb (DeviceHasBeenEnabled dev) then Ok true w
  else if UsingOcca dev then Fatal "Device::UsingOcca()" w
  else Ok false w.

(** [CuMemAlloc(&r->d_ptr, size)] for the record under [key]. *)
Definition alloc_d_ptr (key size : Z) (w : world) : world :=
  let d := CuMemAlloc w size in
  set_memories (alter (with_d_ptr d) key) (call (CuMemAlloc_call size d) w).

Definition PtrKnown (dev : Device) (ptr : Z) : M Z := fun w =>
  match memories (maps w) !! ptr with
  | None => OutOfRange w
  | Some base =>
      let gpu := UsingDevice dev in
      if host base && negb gpu then Ok ptr w
      else if bytes base =? 0 then Fatal "PtrKnown bytes==0" w
      else
        let d := if d_ptr base =? 0 then CuMemAlloc w (bytes base) else d_ptr base in
        let w1 := if d_ptr base =? 0 then alloc_d_ptr ptr (bytes base) w else w in
        if d =? 0 then Fatal "PtrKnown !base->d_ptr" w1
        else if negb (host base) && gpu then Ok d w1
        else if ptr =? 0 then Fatal "PtrKnown !ptr" w1
        else if negb (host base) && negb gpu then
          Ok ptr (set_memories (alter (with_host true) ptr)
                    (call (CuMemcpyDtoH_call ptr d (bytes base)) w1))
        else if negb (host base && gpu) then Fatal "PtrKnown !(host && gpu)" w1
        else
          Ok d (set_memories (alter (with_host false) ptr)
                  (call (CuMemcpyHtoD_call d ptr (bytes base)) w1))
  end.

(** [assert(base)] of [PtrAlias] cannot fail: [alias::mem] is set once, by
    [InsertAlias], to the address of a record. *)
Definition PtrAlias (dev : Device) (ptr : Z) : M Z := fun w =>
  let gpu := UsingDevice dev in
  match aliases (maps w) !! ptr with
  | None => OutOfRange w
  | Some a =>
  match heap w !! a with
  | None => Undefined
  | Some al =>
      if negb (NDEBUG cfg) && negb (offset al >? 0)
      then Fatal "assert(alias->offset >0)" w
      else
      match deref (maps w) (mem al) with
      | None => Undefined
      | Some base =>
          let key := ref_key (mem al) in
          if host base && negb gpu then Ok ptr w
          else if bytes base =? 0 then Fatal "PtrAlias bytes==0" w
          else
            let d := if d_ptr base =? 0 then CuMemAlloc w (bytes base) else d_ptr base in
            let w1 := if d_ptr base =? 0 then alloc_d_ptr key (bytes base) w else w in
            if d =? 0 then Fatal "PtrAlias !base->d_ptr" w1
            else
              let a_ptr := d + offset al in
              if negb (host base) && gpu then Ok a_ptr w1
              else if h_ptr base =? 0 then Fatal "PtrAlias !base->h_ptr" w1
              else if negb (host base) && negb gpu then
                Ok ptr (set_memories (alter (with_host true) key)
                          (call (CuMemcpyDtoH_call (h_ptr base) d (bytes base)) w1))
              else if negb (host base && gpu)
              then Fatal "PtrAlias !(host && gpu)" w1
              else
                Ok a_ptr (set_memories (alter (with_host false) key)
                            (call (CuMemcpyHtoD_call d (h_ptr base) (bytes base)) w1))
      end
  end
  end.

Definition Ptr (dev : Device) (ptr : Z) : M Z :=
  let* pass := MmDeviceIniFilter dev in
  if pass then ret ptr
  else fun w =>
    if Known (maps w) ptr then PtrKnown dev ptr w
    else
      (let* al := Alias ptr in
       if al then PtrAlias dev ptr
       else if UsingDevice dev
       then mfem_error "Trying to use unknown pointer on the DEVICE!"
       else ret ptr) w.

Definition PushKnown (ptr size : Z) : M unit := fun w =>
  match memories (maps w) !! ptr with
  | None => OutOfRange w
  | Some base =>
      let d := if d_ptr base =? 0 then CuMemAlloc w (bytes base) else d_ptr base in
      let w1 := if d_ptr base =? 0 then alloc_d_ptr ptr (bytes base) w else w in
      Ok tt (call (CuMemcpyHtoD_call d ptr (if size =? 0 then bytes base else size)) w1)
  end.

Definition PushAlias (ptr size : Z) : M unit := fun w =>
  match aliases (maps w) !! ptr with
  | None => OutOfRange w
  | Some a =>
  match heap w !! a with
  | None => Undefined
  | Some al =>
  match deref (maps w) (mem al) with
  | None => Undefined
  | Some base =>
      Ok tt (call (CuMemcpyHtoD_call (d_ptr base + offset al) ptr size) w)
  end
  end
  end.

Definition Push (dev : Device) (ptr size : Z) : M unit :=
  if size =? 0 then mfem_error "Push bytes==0"
  else
    let* pass := MmDeviceIniFilter dev in
    if pass then ret tt
    else fun w =>
      if Known (maps w) ptr then PushKnown ptr size w
      else
        (let* al := Alias ptr in
         if al then PushAlias ptr size
         else if UsingDevice dev then mfem_error "Unknown pointer to push to!"
         else ret tt) w.

Definition PullKnown (ptr size : Z) : M unit := fun w =>
  match memories (maps w) !! ptr with
  | None => OutOfRange w
  | Some base =>
      if host base then Ok tt w
      else if negb (NDEBUG cfg) && (h_ptr base =? 0)
      then Fatal "assert(base.h_ptr)" w
      else if negb (NDEBUG cfg) && (d_ptr base =? 0)
      then Fatal "assert(base.d_ptr)" w
      else
        Ok tt (call (CuMemcpyDtoH_call (h_ptr base) (d_ptr base)
                       (if size =? 0 then bytes base else size)) w)
  end.

Definition PullAlias (ptr size : Z) : M unit := fun w =>
  match aliases (maps w) !! ptr with
  | None => OutOfRange w
  | Some a =>
  match heap w !! a with
  | None => Undefined
  | Some al =>
  match deref (maps w) (mem al) with
  | None => Undefined
  | Some base =>
      if host base then Ok tt w
      else if ptr =? 0 then Fatal "PullAlias !ptr" w
      else if d_ptr base =? 0 then Fatal "PullAlias !alias->mem->d_ptr" w
      else Ok tt (call (CuMemcpyDtoH_call ptr (d_ptr base + offset al) size) w)
  end
  end
  end.

Definition Pull (dev : Device) (ptr size : Z) : M unit :=
  let* pass := MmDeviceIniFilter dev in
  if pass then ret tt
  else fun w =>
    if Known (maps w) ptr then PullKnown ptr size w
    else
      (let* al := Alias ptr in
       if al then PullAlias ptr size
       else if UsingDevice dev then mfem_error "Unknown pointer to pull from!"
       else ret tt) w.

(** Modelled from the spec: the static wrapper [mm::ptr] of mm.hpp, which is
    not among the sources; [memcpy] resolves both [dst] and [src] via
    ResolvePointer, that is [mm::Ptr] on the manager. *)
Definition mm_ptr (dev : Device) (p : Z) : M Z := Ptr dev p.

Definition memcpy (dev : Device) (dst src size : Z) (async : bool) : M Z :=
  let* d_dst := mm_ptr dev dst in
  let* d_src := mm_ptr dev src in
  let host_ := UsingHost dev in
  if size =? 0 then ret dst
  else if host_ then fun w => Ok dst (call (std_memcpy_call dst src size) w)
  else if negb async then
    fun w => Ok (CuMemcpyDtoD d_dst d_src size)
               (call (CuMemcpyDtoD_call d_dst d_src size) w)
  else
    fun w => Ok (CuMemcpyDtoDAsync d_dst d_src size)
               (call (CuMemcpyDtoDAsync_call d_dst d_src size) w).

(** ** Statements of the specification that the code does not meet

    Each is written here as the specification has it and is refuted below
    on an explicit input. *)

(** Erasing a record that has a device pointer calls the backend. *)
Definition Erase_releases (dev : Device) (ptr : Z) (w : world) : Prop :=
  ∀ m, memories (maps w) !! ptr = Some m → d_ptr m ≠ 0 →
    ∃ w', Erase dev ptr w = Ok ptr w' ∧ calls_since w w' ≠ [].

(** [Push] copies [size] bytes to the device and leaves the record
    DeviceValid. *)
Definition Push_makes_DeviceValid (dev : Device) (ptr size : Z) (w : world) : Prop :=
  ∀ m, memories (maps w) !! ptr = Some m → 0 < size ≤ bytes m →
    ∃ w' m', Push dev ptr size w = Ok tt w' ∧
      memories (maps w') !! ptr = Some m' ∧
      CuMemcpyHtoD_call (d_ptr m') ptr size ∈ calls_since w w' ∧
      resident m' = DeviceValid.

(** [Pull] of zero bytes is fatal. *)
Definition Pull_zero_is_fatal (dev : Device) (ptr : Z) (w : world) : Prop :=
  is_fatal (Pull dev ptr 0 w) = true.

(** [memcpy] of zero bytes returns [dst] and changes nothing. *)
Definition memcpy_zero_is_noop (dev : Device) (dst src : Z) (async : bool)
    (w : world) : Prop :=
  memcpy dev dst src 0 async w = Ok dst w.

(** After [Erase(base)] no interior pointer of [base] is in [maps.aliases]. *)
Definition Erase_drops_aliases (dev : Device) (base : Z) (w : world) : Prop :=
  ∀ m w', memories (maps w) !! base = Some m → Erase dev base w = Ok base w' →
    ∀ p a al, aliases (maps w) !! p = Some a → heap w !! a = Some al →
      ref_key (mem al) = base → aliases (maps w') !! p = None.

(** No key of [maps.aliases] is a key of [maps.memories], and the offset of
    an alias lies strictly inside its owner. *)
Definition alias_keys_apart (w : world) : Prop :=
  ∀ p a, aliases (maps w) !! p = Some a →
    memories (maps w) !! p = None ∧
    ∃ al m, heap w !! a = Some al ∧ deref (maps w) (mem al) = Some m ∧
      0 < offset al < bytes m.

(** The record [m] agrees with the mode, and [r] is the pointer of the side
    in use: what a resolution leaves behind. *)
Definition settled (gpu : bool) (m : memory) (r_host r_dev r : Z) : Prop :=
  (host m = true ∧ gpu = false ∧ r = r_host) ∨
  (host m = false ∧ gpu = true ∧ bytes m ≠ 0 ∧ d_ptr m ≠ 0 ∧ r = r_dev).

(** Closing tactics for "the trace grew by [cs], with at most one copy". *)
Ltac no_call := exists []; split; [by rewrite app_nil_r | vm_compute; lia].

Ltac some_calls :=
  eexists; split; [rewrite <- ?app_assoc; reflexivity | vm_compute; lia].

(** ** Properties *)

Lemma alter_lookup_insert (f : memory → memory) (mm : gmap Z memory) k m :
  mm !! k = Some m → alter f k mm = <[k := f m]> mm.
Proof. intros H. by apply alter_alt_Some. Qed.

Lemma filter_false dev w :
  MmDeviceIniFilter dev w = Ok false w ↔
  UsingMM dev = true ∧ DeviceDisabled dev = false ∧
  DeviceHasBeenEnabled dev = true ∧ UsingOcca dev = false.
Proof.
  unfold MmDeviceIniFilter.
  destruct (UsingMM dev), (DeviceDisabled dev), (DeviceHasBeenEnabled dev),
    (UsingOcca dev); simpl; split; try tauto; try discriminate;
    intros (? & ? & ? & ?); discriminate.
Qed.

Lemma filter_world dev w b w' : MmDeviceIniFilter dev w = Ok b w' → w' = w.
Proof.
  unfold MmDeviceIniFilter.
  repeat match goal with |- context [if ?c then _ else _] => destruct c end;
    congruence.
Qed.

Lemma filter_any dev w b w0 :
  MmDeviceIniFilter dev w = Ok b w → MmDeviceIniFilter dev w0 = Ok b w0.
Proof.
  unfold MmDeviceIniFilter.
  repeat match goal with |- context [if ?c then _ else _] => destruct c end;
    congruence.
Qed.

Lemma Known_lookup l ptr m : memories l !! ptr = Some m → Known l ptr = true.
Proof. unfold Known. by intros ->. Qed.

Lemma Known_false l ptr : Known l ptr = false ↔ memories l !! ptr = None.
Proof. unfold Known. destruct (memories l !! ptr); split; congruence. Qed.

(** C10. With the memory manager disabled ([Device::UsingMM()] false),
    [Insert(ptr, bytes)] and [Erase(ptr)] return [ptr] and leave the ledger as
    it is, whatever it holds: no duplicate-registration error and no
    unknown-pointer error is raised, so a second [Insert] of the same pointer
    and an [Erase] of a pointer never registered both succeed. *)
Theorem Insert_Erase_without_MM dev ptr size w :
  UsingMM dev = false →
  Insert dev ptr size w = Ok ptr w ∧
  Erase dev ptr w = Ok ptr w ∧
  (let* _ := Insert dev ptr size in Insert dev ptr size) w = Ok ptr w.
Proof.
  intros H. unfold bind, Insert, Erase. rewrite H. simpl. by rewrite ?H.
Qed.

Lemma foldl_delete_lookup_notin (al : gmap Z Z) (l : list Z) p :
  p ∉ l → foldl (fun acc a => delete a acc) al l !! p = al !! p.
Proof.
  revert al. induction l as [|a l IH]; intros al Hp; [done|].
  apply not_elem_of_cons in Hp as [Hne Hl]. simpl.
  rewrite IH by done. by apply lookup_delete_ne.
Qed.

(** What [Erase] does to a registered pointer. *)
Lemma Erase_known_world dev ptr w m :
  UsingMM dev = true → memories (maps w) !! ptr = Some m →
  Erase dev ptr w =
    Ok ptr {| maps := {| memories := delete ptr (memories (maps w));
                         aliases := foldl (fun acc a => delete a acc)
                                      (aliases (maps w)) (mem_aliases m) |};
              heap := heap w; nodes := nodes w; trace := trace w |}.
Proof.
  intros HMM Hm. unfold Erase. rewrite HMM, (Known_lookup _ _ _ Hm), Hm. simpl.
  unfold set_memories, set_aliases. simpl. do 3 f_equal.
  apply map_eq. intros k. destruct (decide (k = ptr)) as [->|Hne].
  - by rewrite !lookup_delete_eq.
  - rewrite !lookup_delete_ne by done. by rewrite lookup_alter_ne.
Qed.

Lemma calls_since_same w w' : trace w' = trace w → calls_since w w' = [].
Proof. unfold calls_since. intros ->. by rewrite drop_all. Qed.

Lemma calls_since_app w w' cs : trace w' = trace w ++ cs → calls_since w w' = cs.
Proof. unfold calls_since. intros ->. by rewrite drop_app_length. Qed.

(** C3, amended. With the memory manager in use, [Erase(ptr)] of a registered
    pointer returns [ptr] and removes its record from [maps.memories]; it
    calls no backend primitive, so a device-side allocation of the record is
    not released. *)
Theorem Erase_known_releases_nothing dev ptr w m :
  UsingMM dev = true → memories (maps w) !! ptr = Some m →
  ∃ w', Erase dev ptr w = Ok ptr w' ∧
    memories (maps w') = delete ptr (memories (maps w)) ∧
    Known (maps w') ptr = false ∧
    calls_since w w' = [].
Proof.
  intros HMM Hm. eexists. split; [by apply Erase_known_world|]. simpl.
  split; [done|]. split.
  - apply Known_false. simpl. apply lookup_delete_eq.
  - by apply calls_since_same.
Qed.

Lemma with_d_ptr_same m : with_d_ptr (d_ptr m) m = m.
Proof. by destruct m. Qed.

Lemma flip_world b ptr c w base :
  memories (maps w) !! ptr = Some base →
  set_memories (alter (with_host b) ptr) (call c w) =
  transition ptr (with_host b (with_d_ptr (d_ptr base) base)) [c] w.
Proof.
  intros H. rewrite with_d_ptr_same. unfold set_memories, call, transition.
  simpl. by rewrite (alter_lookup_insert _ _ _ _ H).
Qed.

Lemma alloc_flip_world b ptr c w base n :
  memories (maps w) !! ptr = Some base →
  set_memories (alter (with_host b) ptr) (call c (alloc_d_ptr ptr n w)) =
  transition ptr (with_host b (with_d_ptr (CuMemAlloc w n) base))
    [CuMemAlloc_call n (CuMemAlloc w n); c] w.
Proof.
  intros H. unfold set_memories, call, alloc_d_ptr, transition. simpl.
  rewrite alter_alter_eq, (alter_lookup_insert _ _ _ _ H).
  by rewrite <- app_assoc.
Qed.

Lemma Ptr_known_is_PtrKnown dev ptr w base :
  MmDeviceIniFilter dev w = Ok false w →
  memories (maps w) !! ptr = Some base →
  Ptr dev ptr w = PtrKnown dev ptr w.
Proof.
  intros Hf Hm. unfold Ptr, bind. rewrite Hf.
  by rewrite (Known_lookup _ _ _ Hm).
Qed.

(** C1. Where the manager is in use (the filter of [Ptr] lets the call
    through), [Ptr] on a known base follows the four-way decision.
    HostValid, device not in use: the host pointer, nothing changed.
    DeviceValid, device in use: the device pointer, nothing changed.
    DeviceValid, device not in use: one device-to-host copy of the whole
    buffer, the record becomes HostValid, the host pointer.  HostValid, device
    in use: the device mirror is allocated if the record has none, one
    host-to-device copy of the whole buffer, the record becomes DeviceValid,
    the device pointer.  The three cases that touch the device suppose what
    the data model grants, a size other than zero and a device pointer other
    than null (once allocated, where it is allocated here); the two copying
    cases also a host pointer other than null. *)
Theorem Ptr_known_four_way dev ptr w base :
  MmDeviceIniFilter dev w = Ok false w →
  memories (maps w) !! ptr = Some base →
  match resident base, UsingDevice dev with
  | HostValid, false => Ptr dev ptr w = Ok ptr w
  | DeviceValid, true =>
      bytes base ≠ 0 → d_ptr base ≠ 0 → Ptr dev ptr w = Ok (d_ptr base) w
  | DeviceValid, false =>
      bytes base ≠ 0 → d_ptr base ≠ 0 → ptr ≠ 0 →
      Ptr dev ptr w =
        Ok ptr (transition ptr (with_host true base)
                  [CuMemcpyDtoH_call ptr (d_ptr base) (bytes base)] w)
  | HostValid, true =>
      let d := if d_ptr base =? 0 then CuMemAlloc w (bytes base)
               else d_ptr base in
      bytes base ≠ 0 → d ≠ 0 → ptr ≠ 0 →
      Ptr dev ptr w =
        Ok d (transition ptr (with_host false (with_d_ptr d base))
                ((if d_ptr base =? 0 then [CuMemAlloc_call (bytes base) d]
                  else []) ++ [CuMemcpyHtoD_call d ptr (bytes base)]) w)
  end.
Proof.
  intros Hf Hm. rewrite (Ptr_known_is_PtrKnown _ _ _ _ Hf Hm).
  unfold PtrKnown, resident. rewrite Hm.
  destruct (host base) eqn:Hh, (UsingDevice dev) eqn:Hg; simpl.
  - intros Hb Hd Hp. apply Z.eqb_neq in Hb, Hd, Hp. rewrite Hb, Hd, Hp.
    destruct (d_ptr base =? 0) eqn:Hd0; simpl.
    + by rewrite (alloc_flip_world _ _ _ _ _ _ Hm).
    + by rewrite (flip_world _ _ _ _ _ Hm).
  - done.
  - intros Hb Hd. apply Z.eqb_neq in Hb, Hd. rewrite Hb, Hd. simpl.
    by rewrite Hd.
  - intros Hb Hd Hp. apply Z.eqb_neq in Hb, Hd, Hp. rewrite Hb, Hd. simpl.
    rewrite Hd, Hp.
    rewrite (flip_world _ _ _ _ _ Hm). by rewrite with_d_ptr_same.
Qed.

Lemma Alias_false_world ptr w w' : Alias ptr w = Ok false w' → w' = w.
Proof.
  unfold Alias, bind, IsAlias, ret.
  destruct (aliases (maps w) !! ptr); [congruence|].
  destruct (MFEM_DEBUG cfg && Known (maps w) ptr); [congruence|].
  destruct (_ =? 0); [congruence|].
  destruct (InsertAlias _ _ _); congruence.
Qed.

(** C6. Where the manager is in use, [Ptr] on a pointer that is not a known
    base and that [Alias] does not resolve is fatal exactly when the device
    is in use; when the device is not in use it returns the pointer; in both
    cases the world, hence the ledger, is the one before the call. *)
Theorem Ptr_unknown dev ptr w w' :
  MmDeviceIniFilter dev w = Ok false w →
  Known (maps w) ptr = false →
  Alias ptr w = Ok false w' →
  w' = w ∧
  is_fatal (Ptr dev ptr w) = UsingDevice dev ∧
  (UsingDevice dev = true → ∃ msg, Ptr dev ptr w = Fatal msg w) ∧
  (UsingDevice dev = false → Ptr dev ptr w = Ok ptr w).
Proof.
  intros Hf Hk Ha. pose proof (Alias_false_world _ _ _ Ha) as ->.
  split; [done|]. unfold Ptr, bind. rewrite Hf, Hk, Ha.
  unfold mfem_error, ret. destruct (UsingDevice dev); simpl.
  - split; [done|]. split; [eauto | discriminate].
  - split; [done|]. split; [discriminate | done].
Qed.

(** C4, amended. Where the manager is in use, [Push(ptr, bytes)] on a
    registered pointer with [0 < bytes <= ] the registered size allocates the
    device mirror if the record has none and copies [bytes] bytes from the
    host to the device, whatever the state of the record; it leaves that
    state as it was (a HostValid record stays HostValid). *)
Theorem Push_known_keeps_state dev ptr size w m :
  MmDeviceIniFilter dev w = Ok false w →
  memories (maps w) !! ptr = Some m →
  0 < size ≤ bytes m →
  let d := if d_ptr m =? 0 then CuMemAlloc w (bytes m) else d_ptr m in
  Push dev ptr size w =
    Ok tt (transition ptr (with_d_ptr d m)
             ((if d_ptr m =? 0 then [CuMemAlloc_call (bytes m) d] else []) ++
              [CuMemcpyHtoD_call d ptr size]) w) ∧
  resident (with_d_ptr d m) = resident m.
Proof.
  intros Hf Hm Hs d. split; [|done].
  assert ((size =? 0) = false) as Hs0 by (apply Z.eqb_neq; lia).
  unfold Push, bind. rewrite Hs0, Hf, (Known_lookup _ _ _ Hm).
  unfold PushKnown. rewrite Hm, Hs0. subst d. f_equal.
  destruct (d_ptr m =? 0) eqn:Hd; unfold transition, call, alloc_d_ptr,
    set_memories; simpl.
  - rewrite (alter_lookup_insert _ _ _ _ Hm). by rewrite <- app_assoc.
  - rewrite with_d_ptr_same. by rewrite (insert_id _ _ _ Hm); destruct w as [[]].
Qed.

(** C5, amended. [Pull(ptr, 0)] is not fatal on account of the zero: where
    the manager is in use and the record of a registered pointer is
    DeviceValid, with both of its pointers set, it copies the whole
    registered size from the device to the host.  On a registered pointer
    whose record is HostValid, [Pull] returns without a copy and without a
    change, for every byte count. *)
Theorem Pull_known dev ptr w m pass :
  MmDeviceIniFilter dev w = Ok pass w →
  memories (maps w) !! ptr = Some m →
  (resident m = HostValid → ∀ size, Pull dev ptr size w = Ok tt w) ∧
  (resident m = DeviceValid → pass = false → h_ptr m ≠ 0 → d_ptr m ≠ 0 →
   Pull dev ptr 0 w =
     Ok tt (call (CuMemcpyDtoH_call (h_ptr m) (d_ptr m) (bytes m)) w)).
Proof.
  intros Hf Hm. unfold resident, Pull, bind, ret. rewrite Hf.
  split.
  - destruct (host m) eqn:Hh; [|discriminate]. intros _ size.
    destruct pass; [done|]. rewrite (Known_lookup _ _ _ Hm).
    unfold PullKnown. by rewrite Hm, Hh.
  - destruct (host m) eqn:Hh; [discriminate|]. intros _ -> Hh0 Hd.
    rewrite (Known_lookup _ _ _ Hm). unfold PullKnown. rewrite Hm, Hh.
    apply Z.eqb_neq in Hh0, Hd. rewrite Hh0, Hd. by rewrite !andb_false_r.
Qed.

(** C9, amended. [memcpy(dst, src, 0, async)] first resolves [dst] and [src]
    with [Ptr]; when both calls return, it returns [dst] and issues no copy
    of its own, so the world it leaves is the one the two resolutions leave
    (with their allocation, copy, change of state and cached alias, if any).
    Where the filter of [Ptr] passes pointers through, it is a no-op. *)
Theorem memcpy_zero dev dst src async w :
  (∀ r w', memcpy dev dst src 0 async w = Ok r w' ↔
     r = dst ∧ ∃ d1 w1 d2,
       Ptr dev dst w = Ok d1 w1 ∧ Ptr dev src w1 = Ok d2 w') ∧
  (MmDeviceIniFilter dev w = Ok true w → memcpy dev dst src 0 async w = Ok dst w).
Proof.
  split.
  - intros r w'. unfold memcpy, mm_ptr, bind at 1 2. simpl.
    destruct (Ptr dev dst w) as [d1 w1| | |] eqn:H1.
    + destruct (Ptr dev src w1) as [d2 w2| | |] eqn:H2; unfold ret.
      * split.
        -- intros [= <- <-]. split; [done|]. by exists d1, w1, d2.
        -- intros [-> (? & ? & ? & [= <- <-] & H)]. rewrite H2 in H.
           by injection H as <- <-.
      * split; [discriminate|]. intros [_ (? & ? & ? & [= <- <-] & H)].
        rewrite H2 in H. discriminate.
      * split; [discriminate|]. intros [_ (? & ? & ? & [= <- <-] & H)].
        rewrite H2 in H. discriminate.
      * split; [discriminate|]. intros [_ (? & ? & ? & [= <- <-] & H)].
        rewrite H2 in H. discriminate.
    + split; [discriminate|]. by intros [_ (? & ? & ? & ? & _)].
    + split; [discriminate|]. by intros [_ (? & ? & ? & ? & _)].
    + split; [discriminate|]. by intros [_ (? & ? & ? & ? & _)].
  - intros Hf. unfold memcpy, mm_ptr, Ptr, bind, ret. by rewrite Hf, Hf.
Qed.

Lemma PtrKnown_settled dev ptr w m r :
  memories (maps w) !! ptr = Some m →
  settled (UsingDevice dev) m ptr (d_ptr m) r →
  PtrKnown dev ptr w = Ok r w.
Proof.
  intros Hm [(Hh & Hg & ->)|(Hh & Hg & Hb & Hd & ->)];
    unfold PtrKnown; rewrite Hm, Hh, Hg; simpl; [done|].
  apply Z.eqb_neq in Hb, Hd. rewrite Hb, Hd. simpl. by rewrite Hd.
Qed.

Lemma PtrKnown_settles dev ptr w r w1 :
  PtrKnown dev ptr w = Ok r w1 →
  ∃ m1, memories (maps w1) !! ptr = Some m1 ∧
    settled (UsingDevice dev) m1 ptr (d_ptr m1) r ∧
    ∃ cs, trace w1 = trace w ++ cs ∧ (copies cs ≤ 1)%nat.
Proof.
  unfold PtrKnown. destruct (memories (maps w) !! ptr) as [base|] eqn:Hm;
    [|discriminate].
  set (d := if d_ptr base =? 0 then CuMemAlloc w (bytes base) else d_ptr base).
  destruct (host base) eqn:Hh, (UsingDevice dev) eqn:Hg; simpl.
  2:{ intros [= <- <-]. exists base. split; [done|]. split; [by left|no_call]. }
  all: destruct (bytes base =? 0) eqn:Hb; [discriminate|];
    destruct (d =? 0) eqn:Hd0; [discriminate|];
    try (destruct (ptr =? 0) eqn:Hp; [discriminate|]);
    intros [= <- <-]; apply Z.eqb_neq in Hb, Hd0;
    destruct (d_ptr base =? 0) eqn:Hd; simpl;
    rewrite ?lookup_alter_eq, ?Hm; simpl;
    (eexists; split; [reflexivity|]; simpl; split;
     [first [left; by repeat split | right; by repeat split]
     |first [no_call | some_calls]]).
Qed.

Lemma Known_alter (f : memory → memory) k (mm : gmap Z memory) al ptr :
  Known {| memories := alter f k mm; aliases := al |} ptr =
  Known {| memories := mm; aliases := al |} ptr.
Proof.
  unfold Known. simpl. destruct (decide (k = ptr)) as [->|Hne].
  - rewrite lookup_alter_eq. by destruct (mm !! ptr).
  - by rewrite lookup_alter_ne.
Qed.

Lemma deref_Some l r m :
  deref l r = Some m ↔
  memories l !! ref_key r = Some m ∧ (node m =? ref_node r)%N = true.
Proof.
  unfold deref. destruct (memories l !! ref_key r) as [m0|].
  - destruct (node m0 =? ref_node r)%N eqn:Hn; split.
    + by intros [= <-].
    + by intros [[= <-] _].
    + discriminate.
    + intros [[= <-] H]. congruence.
  - split; [discriminate | intros [? _]; discriminate].
Qed.

Lemma PtrAlias_settled dev ptr w a al m r :
  aliases (maps w) !! ptr = Some a →
  heap w !! a = Some al →
  negb (NDEBUG cfg) && negb (offset al >? 0) = false →
  deref (maps w) (mem al) = Some m →
  settled (UsingDevice dev) m ptr (d_ptr m + offset al) r →
  PtrAlias dev ptr w = Ok r w.
Proof.
  intros Ha Hal Has Hm [(Hh & Hg & ->)|(Hh & Hg & Hb & Hd & ->)];
    unfold PtrAlias; rewrite Ha, Hal, Has, Hm, Hh, Hg; simpl; [done|].
  apply Z.eqb_neq in Hb, Hd. rewrite Hb, Hd. simpl. by rewrite Hd.
Qed.

Lemma PtrAlias_settles dev ptr w r w1 :
  PtrAlias dev ptr w = Ok r w1 →
  ∃ a al m1,
    aliases (maps w) !! ptr = Some a ∧ heap w !! a = Some al ∧
    negb (NDEBUG cfg) && negb (offset al >? 0) = false ∧
    aliases (maps w1) = aliases (maps w) ∧ heap w1 = heap w ∧
    (∀ k, Known (maps w1) k = Known (maps w) k) ∧
    deref (maps w1) (mem al) = Some m1 ∧
    settled (UsingDevice dev) m1 ptr (d_ptr m1 + offset al) r ∧
    ∃ cs, trace w1 = trace w ++ cs ∧ (copies cs ≤ 1)%nat.
Proof.
  unfold PtrAlias.
  destruct (aliases (maps w) !! ptr) as [a|] eqn:Ha; [|discriminate].
  destruct (heap w !! a) as [al|] eqn:Hal; [|discriminate].
  destruct (negb (NDEBUG cfg) && negb (offset al >? 0)) eqn:Has; [discriminate|].
  destruct (deref (maps w) (mem al)) as [base|] eqn:Hbase; [|discriminate].
  pose proof Hbase as Hbase'. apply deref_Some in Hbase' as [Hm Hn].
  set (d := if d_ptr base =? 0 then CuMemAlloc w (bytes base) else d_ptr base).
  intros H. exists a, al. revert H.
  destruct (host base) eqn:Hh, (UsingDevice dev) eqn:Hg; simpl.
  2:{ intros [= <- <-]. exists base. split_and!; try done; [by left|no_call]. }
  all: destruct (bytes base =? 0) eqn:Hb; [discriminate|];
    destruct (d =? 0) eqn:Hd0; [discriminate|];
    try (destruct (h_ptr base =? 0) eqn:Hp; [discriminate|]);
    intros [= <- <-]; apply Z.eqb_neq in Hb, Hd0;
    destruct (d_ptr base =? 0) eqn:Hd; simpl;
    (eexists; split_and!;
     [done|done|done|done|done
     |intros k; destruct w as [[mm al0] hp n tr]; simpl;
      by rewrite ?Known_alter
     |unfold deref; simpl; rewrite ?lookup_alter_eq, ?Hm; simpl;
      rewrite Hn; reflexivity
     |simpl; first [left; by repeat split | right; by repeat split]
     |first [no_call | some_calls]]).
Qed.

Lemma Alias_cached ptr w a :
  aliases (maps w) !! ptr = Some a → Alias ptr w = Ok true w.
Proof. unfold Alias. by intros ->. Qed.

Lemma InsertAlias_world base ptr w r w' :
  aliases (maps w) !! ptr = None →
  InsertAlias base ptr w = Ok r w' →
  ∃ m l, memories (maps w) !! base = Some m ∧ r = ptr ∧
    w' = {| maps := {| memories := alter (with_aliases l) base (memories (maps w));
                       aliases := <[ptr := operator_new w]> (aliases (maps w)) |};
            heap := <[operator_new w :=
                        {| mem := {| ref_key := base; ref_node := node m |};
                           offset := ptr - base |}]> (heap w);
            nodes := nodes w; trace := trace w |}.
Proof.
  intros Hnone. unfold InsertAlias.
  destruct (memories (maps w) !! base) as [m|] eqn:Hm; [|discriminate].
  unfold emplace, set_memories, set_aliases, set_heap. simpl. rewrite Hnone.
  destruct (MFEM_DEBUG_MM cfg).
  - destruct (same_offset _ _ _ _) as [[]|]; try discriminate.
    intros [= <- <-]. exists m. eexists. repeat (split; [done|]).
    simpl. by rewrite alter_alter_eq.
  - intros [= <- <-]. exists m. eexists. by repeat (split; [done|]).
Qed.

Lemma Alias_true ptr w w' :
  Alias ptr w = Ok true w' →
  is_Some (aliases (maps w') !! ptr) ∧
  (∀ k, Known (maps w') k = Known (maps w) k) ∧
  trace w' = trace w.
Proof.
  unfold Alias. destruct (aliases (maps w) !! ptr) as [a|] eqn:Ha.
  - intros [= <-]. rewrite Ha. eauto.
  - unfold bind, IsAlias, ret.
    destruct (MFEM_DEBUG cfg && Known (maps w) ptr); [discriminate|].
    destruct (_ =? 0); [discriminate|].
    destruct (InsertAlias _ _ _) as [r w2| | |] eqn:Hi; try discriminate.
    intros [= <-]. apply (InsertAlias_world _ _ _ _ _ Ha) in Hi
      as (m & l & Hm & -> & ->). simpl.
    split; [rewrite lookup_insert_eq; eauto|]. split; [|done].
    intros k. destruct w as [[mm al0] hp n tr]. simpl. by rewrite Known_alter.
Qed.

(** Where a first [Ptr] returns (for a known base, for a pointer [Alias]
    resolves, or passed through), a second call in the same mode returns
    the same pointer and changes nothing, so it copies nothing; the first
    call issues at most one copy.  Whether the first call returns is another
    matter: through an entry of [maps.aliases] that outlived its buffer it
    does not. *)
Theorem Ptr_twice dev ptr w r w1 :
  Ptr dev ptr w = Ok r w1 →
  Ptr dev ptr w1 = Ok r w1 ∧ (copies (calls_since w w1) ≤ 1)%nat.
Proof.
  unfold Ptr, bind at 1.
  destruct (MmDeviceIniFilter dev w) as [pass w0| | |] eqn:Hf; try discriminate.
  pose proof (filter_world _ _ _ _ Hf) as ->.
  unfold bind, ret, mfem_error. rewrite (filter_any _ _ _ w1 Hf).
  destruct pass.
  { intros [= <- <-]. split; [done|]. rewrite calls_since_same by done.
    vm_compute; lia. }
  destruct (Known (maps w) ptr) eqn:Hk.
  - intros H. pose proof (PtrKnown_settles _ _ _ _ _ H)
      as (m1 & Hm1 & Hs & cs & Htr & Hc).
    rewrite (Known_lookup _ _ _ Hm1), (calls_since_app _ _ _ Htr).
    split; [|done]. by apply (PtrKnown_settled _ _ _ m1).
  - destruct (Alias ptr w) as [[] w'| | |] eqn:Ha; try discriminate.
    + intros H. pose proof (Alias_true _ _ _ Ha) as ([a' Ha'] & HK & Htr').
      pose proof (PtrAlias_settles _ _ _ _ _ H)
        as (a & al & m1 & Hal & Hhp & Has & Hal1 & Hhp1 & HK1 & Hd & Hs & cs
            & Htr & Hc).
      rewrite HK1, HK, Hk. rewrite <- Hal1 in Hal.
      rewrite (Alias_cached _ _ _ Hal). rewrite <- Hhp1 in Hhp.
      rewrite Htr' in Htr. rewrite (calls_since_app _ _ _ Htr).
      split; [|done]. by apply (PtrAlias_settled _ _ _ a al m1).
    + pose proof (Alias_false_world _ _ _ Ha) as ->.
      destruct (UsingDevice dev); [discriminate|].
      intros [= <- <-]. rewrite Hk, Ha. split; [done|].
      rewrite calls_since_same by done. vm_compute; lia.
Qed.

(** [Erase] deletes from [maps.aliases] the keys that are addresses of alias
    objects of the record; an entry under any other key stays. *)
Lemma Erase_keeps_alias dev ptr w m p a :
  UsingMM dev = true → memories (maps w) !! ptr = Some m →
  aliases (maps w) !! p = Some a → p ∉ mem_aliases m →
  ∃ w', Erase dev ptr w = Ok ptr w' ∧ aliases (maps w') !! p = Some a.
Proof.
  intros HMM Hm Ha Hp. eexists. split; [by apply Erase_known_world|]. simpl.
  by rewrite foldl_delete_lookup_notin.
Qed.

Lemma IsAlias_scan_inside l ptr :
  (∃ b m, (b, m) ∈ l ∧ b ≤ ptr < b + bytes m) →
  ∃ b m, (b, m) ∈ l ∧ b ≤ ptr < b + bytes m ∧ IsAlias_scan l ptr = b.
Proof.
  induction l as [|[b0 m0] l IH]; intros (b & m & Hin & Hr).
  - by apply elem_of_nil in Hin.
  - simpl. destruct (b0 >? ptr) eqn:Hgt.
    + apply elem_of_cons in Hin as [[= -> ->]|Hin]; [lia|].
      destruct IH as (b' & m' & Hin' & Hr' & Hs); [by exists b, m|].
      exists b', m'. split; [by apply elem_of_cons; right|done].
    + destruct (ptr <? b0 + bytes m0) eqn:Hlt.
      * exists b0, m0. split; [by apply elem_of_cons; left|]. split; [lia|done].
      * apply elem_of_cons in Hin as [[= -> ->]|Hin]; [lia|].
        destruct IH as (b' & m' & Hin' & Hr' & Hs); [by exists b, m|].
        exists b', m'. split; [by apply elem_of_cons; right|done].
Qed.

(** X7. The first resolution of an interior pointer: with the regions of the
    ledger disjoint around [ptr], [Alias] finds the owner, caches an alias
    object with the offset [ptr - base], and answers from the cache the
    second time. *)
Lemma Alias_interior base m ptr w :
  MFEM_DEBUG_MM cfg = false →
  memories (maps w) !! base = Some m →
  0 < ptr - base < bytes m →
  base ≠ 0 →
  (∀ b' m', memories (maps w) !! b' = Some m' →
     b' ≤ ptr < b' + bytes m' → b' = base) →
  Known (maps w) ptr = false →
  aliases (maps w) !! ptr = None →
  ∃ w' a al,
    Alias ptr w = Ok true w' ∧
    aliases (maps w') !! ptr = Some a ∧ heap w' !! a = Some al ∧
    ref_key (mem al) = base ∧ offset al = ptr - base ∧
    Alias ptr w' = Ok true w'.
Proof.
  intros Hmm Hm Hr Hb0 Huniq Hk Hnone.
  destruct (IsAlias_scan_inside (map_to_list (memories (maps w))) ptr)
    as (b & mb & Hin & Hrb & Hscan).
  { exists base, m. split; [by apply elem_of_map_to_list|lia]. }
  apply elem_of_map_to_list in Hin. pose proof (Huniq b mb Hin Hrb) as ->.
  unfold Alias at 1, bind, IsAlias, ret. rewrite Hnone, Hk, andb_false_r, Hscan.
  apply Z.eqb_neq in Hb0. rewrite Hb0. unfold InsertAlias.
  rewrite Hm, Hmm. simpl.
  eexists _, (operator_new w), _. split; [reflexivity|].
  unfold emplace. simpl. rewrite Hnone, !lookup_insert_eq.
  split_and!; try done.
  apply (Alias_cached _ _ (operator_new w)). simpl.
  by rewrite Hnone, lookup_insert_eq.
Qed.

(** ** Further properties of the ledger *)

(** X1. [Insert] of a pointer that is not registered, with the manager in use:
    the pointer is [Known] afterwards, its record has the size given, the
    pointer itself as host pointer, no device pointer, no alias and is
    HostValid; no other record, no alias and no backend call is touched. *)
Theorem Insert_registers dev ptr size w :
  UsingMM dev = true → Known (maps w) ptr = false →
  ∃ w' m, Insert dev ptr size w = Ok ptr w' ∧
    memories (maps w') !! ptr = Some m ∧ Known (maps w') ptr = true ∧
    bytes m = size ∧ h_ptr m = ptr ∧ d_ptr m = 0 ∧ mem_aliases m = [] ∧
    resident m = HostValid ∧
    (∀ k, k ≠ ptr → memories (maps w') !! k = memories (maps w) !! k) ∧
    aliases (maps w') = aliases (maps w) ∧ heap w' = heap w ∧
    trace w' = trace w.
Proof.
  intros HMM Hk. pose proof Hk as Hn. apply Known_false in Hn.
  unfold Insert. rewrite HMM, Hk. unfold set_memories, next_node, emplace.
  simpl. rewrite Hn.
  eexists _, _. split; [reflexivity|]. simpl. rewrite lookup_insert_eq.
  split_and!; try done.
  - unfold Known. simpl. by rewrite lookup_insert_eq.
  - intros k Hne. by rewrite lookup_insert_ne.
Qed.

(** X2. A pointer cannot be registered twice: [Insert] of a known pointer is
    fatal and leaves the world as it is; so a second [Insert] right after a
    first fails and the record of the first stays. *)
Theorem Insert_twice_fatal dev ptr size size' w :
  UsingMM dev = true →
  (Known (maps w) ptr = true →
   Insert dev ptr size w =
     Fatal "Trying to add an already present address!" w) ∧
  (Known (maps w) ptr = false →
   ∃ w1, Insert dev ptr size w = Ok ptr w1 ∧
     (let* _ := Insert dev ptr size in Insert dev ptr size') w =
       Fatal "Trying to add an already present address!" w1 ∧
     bytes <$> memories (maps w1) !! ptr = Some size).
Proof.
  intros HMM. split.
  - intros Hk. unfold Insert. by rewrite HMM, Hk.
  - intros Hk. pose proof Hk as Hn. apply Known_false in Hn.
    unfold bind, Insert. rewrite HMM, Hk.
    unfold set_memories, next_node, emplace. simpl. rewrite Hn.
    eexists. split; [reflexivity|]. unfold Known. simpl.
    by rewrite lookup_insert_eq.
Qed.

(** X3. [Erase] right after [Insert] gives the ledger back: both maps, the alias
    objects and the backend trace are those before the [Insert]. *)
Theorem Insert_Erase_round_trip dev ptr size w :
  UsingMM dev = true → Known (maps w) ptr = false →
  ∃ w1 w2, Insert dev ptr size w = Ok ptr w1 ∧ Erase dev ptr w1 = Ok ptr w2 ∧
    maps w2 = maps w ∧ heap w2 = heap w ∧ trace w2 = trace w.
Proof.
  intros HMM Hk. pose proof Hk as Hn. apply Known_false in Hn.
  unfold Insert. rewrite HMM, Hk. unfold set_memories, next_node, emplace.
  simpl. rewrite Hn.
  eexists _, _. split; [reflexivity|]. split.
  - apply (Erase_known_world _ _ _ (new_memory ptr size (nodes w))); [done|].
    simpl. apply lookup_insert_eq.
  - simpl. rewrite (delete_insert_id _ _ _ Hn). by destruct w as [[]].
Qed.

(** X4. [Erase] of a registered pointer removes that record and no other; it
    frees no alias object; a second [Erase] of the pointer is fatal.
    [Erase] of a pointer that is not registered is fatal and leaves the
    world as it is. *)
Theorem Erase_removes_one dev ptr w :
  UsingMM dev = true →
  (Known (maps w) ptr = false →
   Erase dev ptr w = Fatal "Trying to erase an unknown pointer!" w) ∧
  (Known (maps w) ptr = true →
   ∃ w', Erase dev ptr w = Ok ptr w' ∧
     Known (maps w') ptr = false ∧
     (∀ k, k ≠ ptr → memories (maps w') !! k = memories (maps w) !! k) ∧
     heap w' = heap w ∧
     Erase dev ptr w' = Fatal "Trying to erase an unknown pointer!" w').
Proof.
  intros HMM. split.
  - intros Hk. unfold Erase. by rewrite HMM, Hk.
  - intros Hk. unfold Known in Hk.
    destruct (memories (maps w) !! ptr) as [m|] eqn:Hm; [|discriminate].
    eexists. split; [by apply Erase_known_world|]. simpl.
    assert (Known {| memories := delete ptr (memories (maps w));
                     aliases := foldl (λ acc a, delete a acc)
                                  (aliases (maps w)) (mem_aliases m) |} ptr
            = false) as Hk'.
    { apply Known_false. simpl. apply lookup_delete_eq. }
    split_and!; try done.
    + intros k Hne. by rewrite lookup_delete_ne.
    + unfold Erase. simpl. by rewrite HMM, Hk'.
Qed.

Lemma IsAlias_scan_outside l ptr :
  (∀ b m, (b, m) ∈ l → ¬ (b ≤ ptr < b + bytes m)) → IsAlias_scan l ptr = 0.
Proof.
  induction l as [|[b0 m0] l IH]; intros H; [done|]. simpl.
  assert (IsAlias_scan l ptr = 0) as ->.
  { apply IH. intros b m Hin. apply H. by apply elem_of_cons; right. }
  destruct (b0 >? ptr) eqn:Hgt; [done|].
  destruct (ptr <? b0 + bytes m0) eqn:Hlt; [|done].
  exfalso. apply (H b0 m0); [by apply elem_of_cons; left | lia].
Qed.

Lemma IsAlias_scan_sound l ptr b :
  IsAlias_scan l ptr = b → b ≠ 0 →
  ∃ m, (b, m) ∈ l ∧ b ≤ ptr < b + bytes m.
Proof.
  induction l as [|[b0 m0] l IH]; simpl; [congruence|].
  intros Hs Hb. destruct (b0 >? ptr) eqn:Hgt.
  - destruct (IH Hs Hb) as (m & Hin & Hr). exists m.
    split; [by apply elem_of_cons; right | done].
  - destruct (ptr <? b0 + bytes m0) eqn:Hlt.
    + subst b0. exists m0. split; [by apply elem_of_cons; left | lia].
    + destruct (IH Hs Hb) as (m & Hin & Hr). exists m.
      split; [by apply elem_of_cons; right | done].
Qed.

(** X5. A pointer that is no base, is not cached and lies in no registered
    region is not an alias: [Alias] answers [false] and changes nothing. *)
Theorem Alias_outside ptr w :
  Known (maps w) ptr = false →
  aliases (maps w) !! ptr = None →
  (∀ b m, memories (maps w) !! b = Some m → ¬ (b ≤ ptr < b + bytes m)) →
  Alias ptr w = Ok false w.
Proof.
  intros Hk Hnone Hout. unfold Alias, bind, IsAlias, ret.
  rewrite Hnone, Hk, andb_false_r, IsAlias_scan_outside; [done|].
  intros b m Hin. apply elem_of_map_to_list in Hin. by apply Hout.
Qed.

(** X6. Whatever record the scan of [Alias] picks, the new alias lies strictly
    inside it: for a pointer that is no base and was not cached, a [true]
    answer leaves an alias object whose owner is registered, whose offset is
    [ptr] minus the base of the owner, and [0 < offset < owner.bytes]. *)
Theorem Alias_new_inside ptr w w' :
  Known (maps w) ptr = false →
  aliases (maps w) !! ptr = None →
  Alias ptr w = Ok true w' →
  ∃ a al m, aliases (maps w') !! ptr = Some a ∧ heap w' !! a = Some al ∧
    deref (maps w') (mem al) = Some m ∧
    ref_key (mem al) + offset al = ptr ∧ 0 < offset al < bytes m.
Proof.
  intros Hk Hnone. unfold Alias, bind, IsAlias, ret.
  rewrite Hnone, Hk, andb_false_r.
  destruct (IsAlias_scan _ ptr =? 0) eqn:Hz; [discriminate|].
  apply Z.eqb_neq in Hz.
  destruct (IsAlias_scan_sound _ _ _ eq_refl Hz) as (m & Hin & Hr).
  apply elem_of_map_to_list in Hin.
  set (base := IsAlias_scan (map_to_list (memories (maps w))) ptr) in *.
  destruct (InsertAlias base ptr w) as [r w2| | |] eqn:Hi; try discriminate.
  intros [= <-].
  apply (InsertAlias_world _ _ _ _ _ Hnone) in Hi as (m' & l & Hm' & -> & ->).
  rewrite Hin in Hm'. injection Hm' as <-.
  exists (operator_new w),
    {| mem := {| ref_key := base; ref_node := node m |};
       offset := ptr - base |}, (with_aliases l m). simpl.
  rewrite !lookup_insert_eq. split_and!; try done; try lia.
  - unfold deref. simpl. rewrite lookup_alter_eq, Hin. simpl.
    by rewrite N.eqb_refl.
  - apply Known_false in Hk. assert (base ≠ ptr) by congruence. lia.
Qed.

(** ** Further properties of the residency engine *)

(** X9. Where the filter passes pointers through (manager compiled out, device
    disabled or never enabled), [Ptr] returns its argument and [Pull] and a
    [Push] of at least one byte do nothing, for every pointer, registered or
    not.  The zero test of [Push] comes before the filter: a [Push] of zero
    bytes is fatal even there. *)
Theorem pass_through dev ptr size w :
  MmDeviceIniFilter dev w = Ok true w →
  Ptr dev ptr w = Ok ptr w ∧
  Pull dev ptr size w = Ok tt w ∧
  (size ≠ 0 → Push dev ptr size w = Ok tt w) ∧
  Push dev ptr 0 w = Fatal "Push bytes==0" w.
Proof.
  intros Hf. unfold Ptr, Pull, Push, bind, ret, mfem_error. rewrite Hf.
  split_and!; try done. intros Hs. apply Z.eqb_neq in Hs. by rewrite Hs, Hf.
Qed.

(** X10. With the manager in use, a device enabled and the OCCA backend
    selected, every [Ptr], [Pull], [memcpy] and every [Push] of at least one
    byte is fatal in the filter, before the ledger is looked at, for every
    pointer. *)
Theorem Occa_is_fatal dev ptr src size async w :
  UsingMM dev = true → DeviceDisabled dev = false →
  DeviceHasBeenEnabled dev = true → UsingOcca dev = true →
  Ptr dev ptr w = Fatal "Device::UsingOcca()" w ∧
  Pull dev ptr size w = Fatal "Device::UsingOcca()" w ∧
  (size ≠ 0 → Push dev ptr size w = Fatal "Device::UsingOcca()" w) ∧
  memcpy dev ptr src size async w = Fatal "Device::UsingOcca()" w.
Proof.
  intros H1 H2 H3 H4.
  assert (MmDeviceIniFilter dev w = Fatal "Device::UsingOcca()" w) as Hf.
  { unfold MmDeviceIniFilter. by rewrite H1, H2, H3, H4. }
  unfold memcpy, mm_ptr, Ptr, Pull, Push, bind. rewrite Hf.
  split_and!; try done. intros Hs. apply Z.eqb_neq in Hs. by rewrite Hs, Hf.
Qed.

Lemma Ptr_alias_is_PtrAlias dev ptr w a :
  MmDeviceIniFilter dev w = Ok false w →
  Known (maps w) ptr = false →
  aliases (maps w) !! ptr = Some a →
  Ptr dev ptr w = PtrAlias dev ptr w.
Proof.
  intros Hf Hk Ha. unfold Ptr, bind. by rewrite Hf, Hk, (Alias_cached _ _ _ Ha).
Qed.

Lemma assert_offset_passes al :
  0 < offset al → negb (NDEBUG cfg) && negb (offset al >? 0) = false.
Proof.
  intros H. assert ((offset al >? 0) = true) as -> by lia.
  apply andb_false_r.
Qed.

(** X11. [Ptr] on a cached interior pointer follows the same four-way decision
    on the record of the owner, and the copies are of the whole owning
    buffer.  HostValid, device not in use: the pointer itself.  DeviceValid,
    device in use: the device pointer of the owner plus the offset.
    DeviceValid, device not in use: the whole buffer is copied to the host,
    the owner becomes HostValid, the pointer itself.  HostValid, device in
    use: the mirror of the owner is allocated if it has none, the whole
    buffer is copied to the device, the owner becomes DeviceValid, the device
    pointer plus the offset. *)
Theorem Ptr_alias_four_way dev ptr w a al base :
  MmDeviceIniFilter dev w = Ok false w →
  Known (maps w) ptr = false →
  aliases (maps w) !! ptr = Some a →
  heap w !! a = Some al →
  deref (maps w) (mem al) = Some base →
  0 < offset al →
  let key := ref_key (mem al) in
  match resident base, UsingDevice dev with
  | HostValid, false => Ptr dev ptr w = Ok ptr w
  | DeviceValid, true =>
      bytes base ≠ 0 → d_ptr base ≠ 0 →
      Ptr dev ptr w = Ok (d_ptr base + offset al) w
  | DeviceValid, false =>
      bytes base ≠ 0 → d_ptr base ≠ 0 → h_ptr base ≠ 0 →
      Ptr dev ptr w =
        Ok ptr (transition key (with_host true base)
                  [CuMemcpyDtoH_call (h_ptr base) (d_ptr base) (bytes base)] w)
  | HostValid, true =>
      let d := if d_ptr base =? 0 then CuMemAlloc w (bytes base)
               else d_ptr base in
      bytes base ≠ 0 → d ≠ 0 → h_ptr base ≠ 0 →
      Ptr dev ptr w =
        Ok (d + offset al)
          (transition key (with_host false (with_d_ptr d base))
             ((if d_ptr base =? 0 then [CuMemAlloc_call (bytes base) d]
               else []) ++ [CuMemcpyHtoD_call d (h_ptr base) (bytes base)]) w)
  end.
Proof.
  intros Hf Hk Ha Hal Hbase Hoff key.
  rewrite (Ptr_alias_is_PtrAlias _ _ _ _ Hf Hk Ha).
  pose proof Hbase as Hbase'. apply deref_Some in Hbase' as [Hm _].
  unfold PtrAlias, resident.
  rewrite Ha, Hal, (assert_offset_passes _ Hoff), Hbase. fold key.
  destruct (host base) eqn:Hh, (UsingDevice dev) eqn:Hg; simpl.
  - intros Hb Hd Hp. apply Z.eqb_neq in Hb, Hd, Hp. rewrite Hb, Hd, Hp.
    destruct (d_ptr base =? 0) eqn:Hd0; simpl.
    + by rewrite (alloc_flip_world _ _ _ _ _ _ Hm).
    + by rewrite (flip_world _ _ _ _ _ Hm).
  - done.
  - intros Hb Hd. apply Z.eqb_neq in Hb, Hd. rewrite Hb, Hd. simpl.
    by rewrite Hd.
  - intros Hb Hd Hp. apply Z.eqb_neq in Hb, Hd, Hp. rewrite Hb, Hd. simpl.
    rewrite Hd, Hp.
    rewrite (flip_world _ _ _ _ _ Hm). by rewrite with_d_ptr_same.
Qed.

(** X12. [Push] through a cached interior pointer copies [size] bytes from the
    pointer to the device pointer of the owner plus the offset, and that is
    all: unlike [Push] on a base it allocates no mirror, so for an owner
    without a device pointer the destination is the bare offset. *)
Theorem Push_alias_copies_only dev ptr size w a al base :
  MmDeviceIniFilter dev w = Ok false w →
  Known (maps w) ptr = false →
  aliases (maps w) !! ptr = Some a →
  heap w !! a = Some al →
  deref (maps w) (mem al) = Some base →
  size ≠ 0 →
  Push dev ptr size w =
    Ok tt (call (CuMemcpyHtoD_call (d_ptr base + offset al) ptr size) w).
Proof.
  intros Hf Hk Ha Hal Hbase Hs. apply Z.eqb_neq in Hs.
  unfold Push, bind. rewrite Hs, Hf, Hk, (Alias_cached _ _ _ Ha).
  unfold PushAlias. by rewrite Ha, Hal, Hbase.
Qed.

(** X13. [Pull] through a cached interior pointer: nothing for a HostValid
    owner; for a DeviceValid owner with a device pointer, [size] bytes are
    copied from the device pointer plus the offset to the pointer, the owner
    stays DeviceValid, and a zero [size] stays zero (on a base it stands for
    the whole buffer); without a device pointer the call is fatal. *)
Theorem Pull_alias dev ptr size w a al base :
  MmDeviceIniFilter dev w = Ok false w →
  Known (maps w) ptr = false →
  aliases (maps w) !! ptr = Some a →
  heap w !! a = Some al →
  deref (maps w) (mem al) = Some base →
  match resident base with
  | HostValid => Pull dev ptr size w = Ok tt w
  | DeviceValid =>
      ptr ≠ 0 →
      (d_ptr base ≠ 0 →
       Pull dev ptr size w =
         Ok tt (call (CuMemcpyDtoH_call ptr (d_ptr base + offset al) size) w)) ∧
      (d_ptr base = 0 →
       Pull dev ptr size w = Fatal "PullAlias !alias->mem->d_ptr" w)
  end.
Proof.
  intros Hf Hk Ha Hal Hbase.
  unfold Pull, bind, resident. rewrite Hf, Hk, (Alias_cached _ _ _ Ha).
  unfold PullAlias. rewrite Ha, Hal, Hbase. destruct (host base); [done|].
  intros Hp. apply Z.eqb_neq in Hp. rewrite Hp. split.
  - intros Hd. apply Z.eqb_neq in Hd. by rewrite Hd.
  - by intros ->.
Qed.

Lemma transition_call k m cs c w :
  transition k m cs (call c w) = transition k m (c :: cs) w.
Proof. unfold transition, call. simpl. by rewrite <- app_assoc. Qed.

Lemma flip_transition (f : memory → memory) k m cs c w :
  set_memories (alter f k) (call c (transition k m cs w)) =
  transition k (f m) (cs ++ [c]) w.
Proof.
  unfold set_memories, call, transition. simpl.
  by rewrite alter_insert_eq, app_assoc.
Qed.

Lemma Ptr_transition_is_PtrKnown dev k m cs w :
  MmDeviceIniFilter dev w = Ok false w →
  Ptr dev k (transition k m cs w) = PtrKnown dev k (transition k m cs w).
Proof.
  intros Hf. unfold Ptr, bind. rewrite (filter_any _ _ _ (transition k m cs w) Hf).
  unfold Known. simpl. by rewrite lookup_insert_eq.
Qed.

(** X14. [Pull] on a DeviceValid base copies to the host and leaves the record
    DeviceValid; a [Ptr] that follows with the device not in use therefore
    copies the whole buffer once more before the record is HostValid. *)
Theorem Pull_then_Ptr_copies_twice dev ptr size w m :
  MmDeviceIniFilter dev w = Ok false w →
  UsingDevice dev = false →
  memories (maps w) !! ptr = Some m →
  resident m = DeviceValid →
  bytes m ≠ 0 → d_ptr m ≠ 0 → h_ptr m ≠ 0 → ptr ≠ 0 →
  let n := if size =? 0 then bytes m else size in
  Pull dev ptr size w =
    Ok tt (call (CuMemcpyDtoH_call (h_ptr m) (d_ptr m) n) w) ∧
  (let* _ := Pull dev ptr size in Ptr dev ptr) w =
    Ok ptr (transition ptr (with_host true m)
              [CuMemcpyDtoH_call (h_ptr m) (d_ptr m) n;
               CuMemcpyDtoH_call ptr (d_ptr m) (bytes m)] w).
Proof.
  intros Hf Hg Hm Hres Hb Hd Hh Hp n. unfold resident in Hres.
  destruct (host m) eqn:Hhost; [discriminate|].
  apply Z.eqb_neq in Hb, Hd, Hh, Hp.
  assert (Pull dev ptr size w =
          Ok tt (call (CuMemcpyDtoH_call (h_ptr m) (d_ptr m) n) w)) as HP.
  { unfold Pull, bind. rewrite Hf, (Known_lookup _ _ _ Hm).
    unfold PullKnown. by rewrite Hm, Hhost, Hh, Hd, !andb_false_r. }
  split; [done|]. unfold bind at 1. rewrite HP.
  set (w1 := call _ w).
  assert (memories (maps w1) !! ptr = Some m) as Hm1 by done.
  rewrite (Ptr_known_is_PtrKnown _ _ _ _ (filter_any _ _ _ w1 Hf) Hm1).
  unfold PtrKnown. rewrite Hm1, Hhost, Hg, Hb, Hd. simpl. rewrite Hd, Hp.
  rewrite (flip_world _ _ _ _ _ Hm1), with_d_ptr_same. subst w1.
  by rewrite transition_call.
Qed.

(** X15. A HostValid buffer taken to the device and back: [Ptr] with the device
    in use, then [Ptr] with the device not in use, returns the host pointer;
    the record is HostValid again and keeps its mirror; the backend saw the
    allocation (if the record had no mirror), one copy to the device and one
    copy back, each of the whole buffer. *)
Theorem Ptr_device_then_host dev_a dev_h ptr w m :
  MmDeviceIniFilter dev_a w = Ok false w →
  MmDeviceIniFilter dev_h w = Ok false w →
  UsingDevice dev_a = true → UsingDevice dev_h = false →
  memories (maps w) !! ptr = Some m →
  resident m = HostValid →
  bytes m ≠ 0 → ptr ≠ 0 →
  let d := if d_ptr m =? 0 then CuMemAlloc w (bytes m) else d_ptr m in
  d ≠ 0 →
  (let* _ := Ptr dev_a ptr in Ptr dev_h ptr) w =
    Ok ptr (transition ptr (with_d_ptr d m)
              ((if d_ptr m =? 0 then [CuMemAlloc_call (bytes m) d] else []) ++
               [CuMemcpyHtoD_call d ptr (bytes m);
                CuMemcpyDtoH_call ptr d (bytes m)]) w).
Proof.
  intros Hfa Hfh Hga Hgh Hm Hres Hb Hp d Hd. unfold resident in Hres.
  destruct (host m) eqn:Hhost; [|discriminate].
  apply Z.eqb_neq in Hb, Hp, Hd.
  set (cs := if d_ptr m =? 0 then [CuMemAlloc_call (bytes m) d] else []).
  assert (Ptr dev_a ptr w =
          Ok d (transition ptr (with_host false (with_d_ptr d m))
                  (cs ++ [CuMemcpyHtoD_call d ptr (bytes m)]) w)) as H1.
  { rewrite (Ptr_known_is_PtrKnown _ _ _ _ Hfa Hm). unfold PtrKnown.
    rewrite Hm, Hhost, Hga, Hb. simpl. fold d. rewrite Hd, Hp. subst cs d.
    destruct (d_ptr m =? 0) eqn:Hd0; simpl.
    - by rewrite (alloc_flip_world _ _ _ _ _ _ Hm).
    - by rewrite (flip_world _ _ _ _ _ Hm). }
  unfold bind. rewrite H1, (Ptr_transition_is_PtrKnown _ _ _ _ _ Hfh).
  unfold PtrKnown at 1. simpl. rewrite lookup_insert_eq. simpl.
  rewrite Hgh, Hb, Hd. simpl. rewrite Hd, Hp, flip_transition.
  rewrite <- app_assoc. simpl.
  by replace (with_host true (with_host false (with_d_ptr d m)))
    with (with_d_ptr d m) by (destruct m; simpl in *; by subst).
Qed.

(** X8. [Alias] must not be given a base.  With [MFEM_DEBUG] the assertion of
    [IsAlias] makes the call fatal.  Without it, for a base whose region is
    the only one that holds it, the call caches an alias of offset zero
    under the key of the base. *)
Theorem Alias_on_base ptr w m :
  memories (maps w) !! ptr = Some m →
  aliases (maps w) !! ptr = None →
  (MFEM_DEBUG cfg = true →
   Alias ptr w = Fatal "Ptr is an already known address!" w) ∧
  (MFEM_DEBUG cfg = false → MFEM_DEBUG_MM cfg = false →
   0 < bytes m → ptr ≠ 0 →
   (∀ b' m', memories (maps w) !! b' = Some m' →
      b' ≤ ptr < b' + bytes m' → b' = ptr) →
   ∃ w' a al, Alias ptr w = Ok true w' ∧
     aliases (maps w') !! ptr = Some a ∧ heap w' !! a = Some al ∧
     ref_key (mem al) = ptr ∧ offset al = 0 ∧ Known (maps w') ptr = true).
Proof.
  intros Hm Hnone. pose proof (Known_lookup _ _ _ Hm) as Hk. split.
  - intros Hdbg. unfold Alias, bind, IsAlias. by rewrite Hnone, Hdbg, Hk.
  - intros Hdbg Hmm Hb Hp Huniq.
    destruct (IsAlias_scan_inside (map_to_list (memories (maps w))) ptr)
      as (b & mb & Hin & Hrb & Hscan).
    { exists ptr, m. split; [by apply elem_of_map_to_list|lia]. }
    apply elem_of_map_to_list in Hin. pose proof (Huniq b mb Hin Hrb) as ->.
    unfold Alias, bind, IsAlias, ret. rewrite Hnone, Hdbg, Hscan. simpl.
    apply Z.eqb_neq in Hp. rewrite Hp. unfold InsertAlias.
    rewrite Hm, Hmm. simpl.
    eexists _, (operator_new w), _. split; [reflexivity|].
    unfold emplace, Known. simpl.
    rewrite Hnone, !lookup_insert_eq, lookup_alter_eq, Hm. simpl.
    split; [done|]. split; [reflexivity|]. simpl. split_and!; try done. lia.
Qed.

(** X16. [memcpy] of at least one byte between two bases whose records agree
    with the mode resolves both without a change and issues one copy: on the
    host a [std::memcpy] of the two host pointers, otherwise a device copy,
    synchronous or asynchronous, of the two resolved pointers. *)
Theorem memcpy_settled dev dst src size async w md ms r1 r2 :
  MmDeviceIniFilter dev w = Ok false w →
  memories (maps w) !! dst = Some md →
  memories (maps w) !! src = Some ms →
  settled (UsingDevice dev) md dst (d_ptr md) r1 →
  settled (UsingDevice dev) ms src (d_ptr ms) r2 →
  size ≠ 0 →
  memcpy dev dst src size async w =
    if UsingHost dev then Ok dst (call (std_memcpy_call dst src size) w)
    else if async
    then Ok (CuMemcpyDtoDAsync r1 r2 size)
           (call (CuMemcpyDtoDAsync_call r1 r2 size) w)
    else Ok (CuMemcpyDtoD r1 r2 size) (call (CuMemcpyDtoD_call r1 r2 size) w).
Proof.
  intros Hf Hd Hs Hsd Hss Hn. apply Z.eqb_neq in Hn.
  unfold memcpy, mm_ptr, bind.
  rewrite (Ptr_known_is_PtrKnown _ _ _ _ Hf Hd),
    (PtrKnown_settled _ _ _ _ _ Hd Hsd),
    (Ptr_known_is_PtrKnown _ _ _ _ Hf Hs),
    (PtrKnown_settled _ _ _ _ _ Hs Hss), Hn.
  by destruct (UsingHost dev), async.
Qed.

(** ** What the engine never changes *)

Lemma same_buffers_refl w : same_buffers w w.
Proof. by intros k. Qed.

Lemma same_buffers_trans w1 w2 w3 :
  same_buffers w1 w2 → same_buffers w2 w3 → same_buffers w1 w3.
Proof. intros H1 H2 k. by rewrite H2, H1. Qed.

Lemma same_buffers_alter (f : memory → memory) k w0 w :
  (∀ m, buffer_of (f m) = buffer_of m) →
  same_buffers w0 w → same_buffers w0 (set_memories (alter f k) w).
Proof.
  intros Hf H k'. rewrite <- H. simpl. destruct (decide (k = k')) as [->|Hne].
  - rewrite lookup_alter_eq. destruct (memories (maps w) !! k'); [|done].
    simpl. by rewrite Hf.
  - by rewrite lookup_alter_ne.
Qed.

Lemma memory_only_refl w : memory_only w w.
Proof. by split_and!. Qed.

Lemma memory_only_call c w0 w : memory_only w0 w → memory_only w0 (call c w).
Proof. by intros (? & ? & ?). Qed.

Lemma memory_only_alter (f : memory → memory) k w0 w :
  (∀ m, buffer_of (f m) = buffer_of m) →
  memory_only w0 w → memory_only w0 (set_memories (alter f k) w).
Proof.
  intros Hf (? & ? & ?). split_and!; try done. by apply same_buffers_alter.
Qed.

Lemma memory_only_alloc k n w0 w :
  memory_only w0 w → memory_only w0 (alloc_d_ptr k n w).
Proof.
  intros H. unfold alloc_d_ptr. apply memory_only_alter; [by intros []|].
  by apply memory_only_call.
Qed.

Ltac memory_only_world :=
  repeat first
    [ apply memory_only_refl
    | apply memory_only_call
    | apply memory_only_alloc
    | apply memory_only_alter; [by intros []|] ].

Ltac split_ifs :=
  repeat match goal with
    | |- context [if ?c then _ else _] => destruct c
    end.

Lemma PtrKnown_memory_only dev ptr w w' :
  world_of (PtrKnown dev ptr w) = Some w' → memory_only w w'.
Proof.
  unfold PtrKnown. destruct (memories (maps w) !! ptr); split_ifs; simpl;
    intros [= <-]; memory_only_world.
Qed.

Lemma PtrAlias_memory_only dev ptr w w' :
  world_of (PtrAlias dev ptr w) = Some w' → memory_only w w'.
Proof.
  unfold PtrAlias. destruct (aliases (maps w) !! ptr) as [a|];
    [|simpl; intros [= <-]; memory_only_world].
  destruct (heap w !! a) as [al|]; [|discriminate].
  destruct (negb (NDEBUG cfg) && negb (offset al >? 0));
    [simpl; intros [= <-]; memory_only_world|].
  destruct (deref (maps w) (mem al)); [|discriminate].
  split_ifs; simpl; intros [= <-]; memory_only_world.
Qed.

Lemma PushKnown_memory_only ptr size w w' :
  world_of (PushKnown ptr size w) = Some w' → memory_only w w'.
Proof.
  unfold PushKnown. destruct (memories (maps w) !! ptr); split_ifs; simpl;
    intros [= <-]; memory_only_world.
Qed.

Lemma PushAlias_memory_only ptr size w w' :
  world_of (PushAlias ptr size w) = Some w' → memory_only w w'.
Proof.
  unfold PushAlias. destruct (aliases (maps w) !! ptr) as [a|];
    [|simpl; intros [= <-]; memory_only_world].
  destruct (heap w !! a) as [al|]; [|discriminate].
  destruct (deref (maps w) (mem al)); [|discriminate].
  simpl; intros [= <-]; memory_only_world.
Qed.

Lemma PullKnown_memory_only ptr size w w' :
  world_of (PullKnown ptr size w) = Some w' → memory_only w w'.
Proof.
  unfold PullKnown. destruct (memories (maps w) !! ptr); split_ifs; simpl;
    intros [= <-]; memory_only_world.
Qed.

Lemma PullAlias_memory_only ptr size w w' :
  world_of (PullAlias ptr size w) = Some w' → memory_only w w'.
Proof.
  unfold PullAlias. destruct (aliases (maps w) !! ptr) as [a|];
    [|simpl; intros [= <-]; memory_only_world].
  destruct (heap w !! a) as [al|]; [|discriminate].
  destruct (deref (maps w) (mem al)); [|discriminate].
  split_ifs; simpl; intros [= <-]; memory_only_world.
Qed.

(** However [Alias] ends, the world is the one before, or the one before
    with one entry and one alias object more and the same buffers. *)
Lemma Alias_shape ptr w w' :
  world_of (Alias ptr w) = Some w' →
  w' = w ∨
  (aliases (maps w) !! ptr = None ∧
   ∃ base m,
     memories (maps w) !! base = Some m ∧
     aliases (maps w') = <[ptr := operator_new w]> (aliases (maps w)) ∧
     heap w' = <[operator_new w :=
                   {| mem := {| ref_key := base; ref_node := node m |};
                      offset := ptr - base |}]> (heap w) ∧
     same_buffers w w').
Proof.
  unfold Alias. destruct (aliases (maps w) !! ptr) eqn:Hnone.
  { simpl. intros [= <-]. by left. }
  unfold bind, IsAlias, ret.
  destruct (MFEM_DEBUG cfg && Known (maps w) ptr).
  { simpl. intros [= <-]. by left. }
  destruct (_ =? 0). { simpl. intros [= <-]. by left. }
  set (base := IsAlias_scan _ _). unfold InsertAlias.
  destruct (memories (maps w) !! base) as [m|] eqn:Hm.
  2:{ simpl. intros [= <-]. by left. }
  assert (∀ (f : memory → memory) w0, (∀ x, buffer_of (f x) = buffer_of x) →
            same_buffers w w0 →
            same_buffers w (set_memories (alter f base) w0)) as Hsb.
  { intros. by apply same_buffers_alter. }
  intros H. right. split; [done|]. exists base, m. split; [done|]. revert H.
  unfold emplace.
  destruct (MFEM_DEBUG_MM cfg).
  - destruct (same_offset _ _ _ _) as [[]|]; simpl; [| |discriminate];
      intros [= <-]; simpl; rewrite Hnone; split_and!; try done;
      repeat (apply Hsb; [by intros []|]); by intros k.
  - simpl. intros [= <-]. simpl. rewrite Hnone. split_and!; try done.
    apply Hsb; [by intros []|]. by intros k.
Qed.

(** The common frame of [Ptr], [Push] and [Pull]: the filter, the base or
    alias branch, the unknown pointer. *)
Lemma filter_outcome dev w : world_of (MmDeviceIniFilter dev w) = Some w.
Proof. unfold MmDeviceIniFilter. by split_ifs. Qed.

Lemma dispatch_shape {T} dev ptr (x : T) (K A : M T) msg w w' :
  (∀ w w', world_of (K w) = Some w' → memory_only w w') →
  (∀ w w', world_of (A w) = Some w' → memory_only w w') →
  world_of
    ((let* pass := MmDeviceIniFilter dev in
      if pass then ret x
      else fun w =>
        if Known (maps w) ptr then K w
        else
          (let* al := Alias ptr in
           if al then A
           else if UsingDevice dev then mfem_error msg else ret x) w) w)
    = Some w' →
  ∃ w1, (w1 = w ∨ world_of (Alias ptr w) = Some w1) ∧ memory_only w1 w'.
Proof.
  intros HK HA. unfold bind at 1. pose proof (filter_outcome dev w) as Hf.
  destruct (MmDeviceIniFilter dev w) as [pass w0|m w0|w0|]; simpl in Hf;
    try discriminate; injection Hf as ->.
  - destruct pass.
    + simpl. intros [= <-]. exists w. split; [by left|apply memory_only_refl].
    + destruct (Known (maps w) ptr).
      * intros H. exists w. split; [by left|by apply HK].
      * unfold bind, mfem_error, ret.
        destruct (Alias ptr w) as [al w1|m w1|w1|]; simpl; try discriminate.
        -- intros H. exists w1. split; [by right|]. destruct al; [by apply HA|].
           destruct (UsingDevice dev); simpl in H; injection H as <-;
             apply memory_only_refl.
        -- intros [= <-]. exists w1. split; [by right|apply memory_only_refl].
        -- intros [= <-]. exists w1. split; [by right|apply memory_only_refl].
  - simpl. intros [= <-]. exists w. split; [by left|apply memory_only_refl].
  - simpl. intros [= <-]. exists w. split; [by left|apply memory_only_refl].
Qed.

Lemma Ptr_shape dev ptr w w' :
  world_of (Ptr dev ptr w) = Some w' →
  ∃ w1, (w1 = w ∨ world_of (Alias ptr w) = Some w1) ∧ memory_only w1 w'.
Proof.
  apply dispatch_shape; [apply PtrKnown_memory_only|apply PtrAlias_memory_only].
Qed.

Lemma Push_shape dev ptr size w w' :
  world_of (Push dev ptr size w) = Some w' →
  ∃ w1, (w1 = w ∨ world_of (Alias ptr w) = Some w1) ∧ memory_only w1 w'.
Proof.
  unfold Push. destruct (size =? 0).
  - simpl. intros [= <-]. exists w. split; [by left|apply memory_only_refl].
  - apply dispatch_shape;
      [apply PushKnown_memory_only|apply PushAlias_memory_only].
Qed.

Lemma Pull_shape dev ptr size w w' :
  world_of (Pull dev ptr size w) = Some w' →
  ∃ w1, (w1 = w ∨ world_of (Alias ptr w) = Some w1) ∧ memory_only w1 w'.
Proof.
  apply dispatch_shape;
    [apply PullKnown_memory_only|apply PullAlias_memory_only].
Qed.

Lemma shape_same_buffers ptr w w1 w' :
  (w1 = w ∨ world_of (Alias ptr w) = Some w1) → memory_only w1 w' →
  same_buffers w w'.
Proof.
  intros H (_ & _ & Hsb). apply (same_buffers_trans _ w1); [|done].
  destruct H as [->|H]; [apply same_buffers_refl|].
  apply Alias_shape in H as [->|(_ & ? & ? & _ & _ & _ & ?)];
    [apply same_buffers_refl|done].
Qed.

(** X17. [Ptr], [Push], [Pull] and [memcpy] neither register nor erase: however
    a call ends, fatal or not, the ledger holds the same base pointers, each
    with the size, the host pointer and the node it was registered with. *)
Theorem engine_keeps_buffers dev ptr src size async :
  keeps_buffers (Ptr dev ptr) ∧
  keeps_buffers (Push dev ptr size) ∧
  keeps_buffers (Pull dev ptr size) ∧
  keeps_buffers (memcpy dev ptr src size async).
Proof.
  assert (∀ p, keeps_buffers (Ptr dev p)) as HPtr.
  { intros p w w' H. apply Ptr_shape in H as (w1 & H1 & H2).
    by apply (shape_same_buffers p w w1). }
  split_and!; [apply HPtr| | |].
  - intros w w' H. apply Push_shape in H as (w1 & H1 & H2).
    by apply (shape_same_buffers ptr w w1).
  - intros w w' H. apply Pull_shape in H as (w1 & H1 & H2).
    by apply (shape_same_buffers ptr w w1).
  - intros w w'. unfold memcpy, mm_ptr, bind.
    destruct (Ptr dev ptr w) as [d1 w1| | |] eqn:H1; simpl; try discriminate;
      [|intros [= <-]; apply (HPtr ptr); by rewrite H1..].
    assert (same_buffers w w1) as Hw1 by (apply (HPtr ptr); by rewrite H1).
    destruct (Ptr dev src w1) as [d2 w2| | |] eqn:H2; simpl; try discriminate;
      [|intros [= <-]; apply (same_buffers_trans _ w1); [done|];
        apply (HPtr src); by rewrite H2..].
    assert (same_buffers w w2) as Hw2.
    { apply (same_buffers_trans _ w1); [done|]. apply (HPtr src).
      by rewrite H2. }
    unfold ret. split_ifs; simpl; by intros [= <-].
Qed.

(** X18. The same calls keep [maps.aliases] anchored: where every entry led to
    an alias object with key = base + offset before the call, and [new]
    returns an address that holds no alias object yet, every entry does so
    after the call, however it ends. *)
Theorem engine_keeps_aliases_anchored dev ptr size w :
  aliases_anchored w →
  heap w !! operator_new w = None →
  (∀ w', world_of (Ptr dev ptr w) = Some w' → aliases_anchored w') ∧
  (∀ w', world_of (Push dev ptr size w) = Some w' → aliases_anchored w') ∧
  (∀ w', world_of (Pull dev ptr size w) = Some w' → aliases_anchored w').
Proof.
  intros Hanch Hfresh.
  assert (∀ w1 w', (w1 = w ∨ world_of (Alias ptr w) = Some w1) →
            memory_only w1 w' → aliases_anchored w') as Hshape.
  { intros w1 w' H (Hal & Hhp & _).
    assert (aliases_anchored w1) as H1.
    { destruct H as [->|H]; [done|].
      apply Alias_shape in H as [->|(Hnone & base & m & Hm & Ha & Hh & _)];
        [done|].
      intros p a. rewrite Ha, Hh. destruct (decide (p = ptr)) as [->|Hne].
      - rewrite lookup_insert_eq. intros [= <-]. rewrite lookup_insert_eq.
        eexists. split; [done|]. simpl. lia.
      - rewrite lookup_insert_ne by done. intros Hp.
        destruct (Hanch p a Hp) as (al & Hal' & Hkey).
        exists al. split; [|done]. rewrite lookup_insert_ne; [done|].
        intros <-. congruence. }
    intros p a. rewrite Hal, Hhp. apply H1. }
  split_and!; intros w' H.
  - apply Ptr_shape in H as (w1 & H1 & H2). by apply (Hshape w1).
  - apply Push_shape in H as (w1 & H1 & H2). by apply (Hshape w1).
  - apply Pull_shape in H as (w1 & H1 & H2). by apply (Hshape w1).
Qed.

(** X19. [Insert] and [Erase] keep them anchored too: [Insert] leaves both
    [maps.aliases] and the alias objects alone, [Erase] only removes entries. *)
Theorem ledger_keeps_aliases_anchored dev ptr size w :
  aliases_anchored w →
  (∀ w', world_of (Insert dev ptr size w) = Some w' → aliases_anchored w') ∧
  (∀ w', world_of (Erase dev ptr w) = Some w' → aliases_anchored w').
Proof.
  intros Hanch. split; intros w'.
  - unfold Insert. split_ifs; simpl; by intros [= <-].
  - unfold Erase. destruct (negb (UsingMM dev)); [simpl; by intros [= <-]|].
    destruct (negb (Known (maps w) ptr)); [simpl; by intros [= <-]|].
    destruct (memories (maps w) !! ptr) as [m|]; simpl; [|by intros [= <-]].
    intros [= <-]. intros p a. simpl.
    generalize (mem_aliases m) (aliases (maps w)) (Hanch p).
    intros l. induction l as [|x l IH]; intros al Hal; simpl; [apply Hal|].
    apply IH. intros a' Ha'. destruct (decide (x = p)) as [->|Hne].
    + by rewrite lookup_delete_eq in Ha'.
    + rewrite lookup_delete_ne in Ha' by done. by apply Hal.
Qed.

(** ** [DumpMode] *)

(** X20. The number [DumpMode] prints has one bit for each query, from
    [UsingOcca] at bit 0 to [UsingMM] at bit 7: the bit 0 that [cfg.set]
    sets for a query that is false is shifted out.  So the number is below
    256 and two configurations print the same number only if the eight
    queries agree. *)
Theorem DumpMode_cfg_bits dev DeviceEnabled UsingCuda :
  let c := DumpMode_cfg dev DeviceEnabled UsingCuda in
  0 ≤ c < 256 ∧
  Z.testbit c 7 = UsingMM dev ∧
  Z.testbit c 6 = DeviceHasBeenEnabled dev ∧
  Z.testbit c 5 = DeviceEnabled ∧
  Z.testbit c 4 = DeviceDisabled dev ∧
  Z.testbit c 3 = UsingHost dev ∧
  Z.testbit c 2 = UsingDevice dev ∧
  Z.testbit c 1 = UsingCuda ∧
  Z.testbit c 0 = UsingOcca dev.
Proof.
  destruct dev as [[] [] [] [] [] []], DeviceEnabled, UsingCuda;
    vm_compute; repeat split; congruence.
Qed.

(** X21. [DumpMode] reads the environment at its first call only, prints a
    number only if it is the number of the configuration and differs from
    the one kept, and never prints twice in a row for the same
    configuration. *)
Theorem DumpMode_prints_changes g g' dev DeviceEnabled UsingCuda s :
  let r := DumpMode g dev DeviceEnabled UsingCuda s in
  env_ini (fst r) = true ∧
  env_dbg (fst r) = (if env_ini s then env_dbg s else g) ∧
  (∀ c, snd r = Some c →
     c = DumpMode_cfg dev DeviceEnabled UsingCuda ∧ c ≠ mode s ∧
     mode (fst r) = c) ∧
  snd (DumpMode g' dev DeviceEnabled UsingCuda (fst r)) = None.
Proof.
  unfold DumpMode. set (c := DumpMode_cfg dev DeviceEnabled UsingCuda).
  destruct s as [[] dbg md]; simpl.
  - destruct dbg; simpl; [|by split_and!].
    destruct (c =? md) eqn:Hc; simpl.
    + rewrite Hc. by split_and!.
    + rewrite Z.eqb_refl. apply Z.eqb_neq in Hc. split_and!; try done.
      by intros ? [= <-].
  - destruct g; simpl; [|by split_and!].
    destruct (c =? md) eqn:Hc; simpl.
    + rewrite Hc. by split_and!.
    + rewrite Z.eqb_refl. apply Z.eqb_neq in Hc. split_and!; try done.
      by intros ? [= <-].
Qed.

End MM.

(** ** The operations on explicit inputs *)

Lemma Insert_Erase_without_MM_witness :
  Insert mm_off 100 64 (registered 100 64) = Ok 100 (registered 100 64) ∧
  Erase mm_off 7 (registered 100 64) = Ok 7 (registered 100 64).
Proof.
  split.
  - apply (Insert_Erase_without_MM mm_off 100 64 (registered 100 64)).
    reflexivity.
  - apply (Insert_Erase_without_MM mm_off 7 64 (registered 100 64)).
    reflexivity.
Defined.

Lemma Ptr_known_four_way_witness :
  let Ptr := Ptr release_build bump_new bump_alloc in
  Ptr device_idle 100 (registered 100 64) = Ok 100 (registered 100 64) ∧
  Ptr device_active 100 (mirrored 100 64) = Ok 65536 (mirrored 100 64) ∧
  Ptr device_idle 100 (mirrored 100 64) =
    Ok 100 (transition 100 (with_host true
                              (with_d_ptr 65536 (new_memory 100 64 0)))
              [CuMemcpyDtoH_call 100 65536 64] (mirrored 100 64)) ∧
  Ptr device_active 100 (registered 100 64) =
    Ok 65536 (transition 100 (with_host false
                                (with_d_ptr 65536 (new_memory 100 64 0)))
                [CuMemAlloc_call 64 65536; CuMemcpyHtoD_call 65536 100 64]
                (registered 100 64)).
Proof.
  intros P. subst P. split_and!.
  - apply (Ptr_known_four_way release_build bump_new bump_alloc device_idle 100
             (registered 100 64) (new_memory 100 64 0));
      [reflexivity | vm_compute; reflexivity | (vm_compute; lia)..].
  - apply (Ptr_known_four_way release_build bump_new bump_alloc device_active
             100 (mirrored 100 64)
             (with_host false (with_d_ptr 65536 (new_memory 100 64 0))));
      [reflexivity | vm_compute; reflexivity | (vm_compute; lia)..].
  - apply (Ptr_known_four_way release_build bump_new bump_alloc device_idle 100
             (mirrored 100 64)
             (with_host false (with_d_ptr 65536 (new_memory 100 64 0))));
      [reflexivity | vm_compute; reflexivity | (vm_compute; lia)..].
  - apply (Ptr_known_four_way release_build bump_new bump_alloc device_active
             100 (registered 100 64) (new_memory 100 64 0));
      [reflexivity | vm_compute; reflexivity | (vm_compute; lia)..].
Defined.

Lemma Erase_known_releases_nothing_witness :
  ∃ w', Erase device_active 100 (mirrored 100 64) = Ok 100 w' ∧
    memories (maps w') = delete 100 (memories (maps (mirrored 100 64))) ∧
    Known (maps w') 100 = false ∧
    calls_since (mirrored 100 64) w' = [].
Proof.
  apply (Erase_known_releases_nothing device_active 100 (mirrored 100 64)
           (with_host false (with_d_ptr 65536 (new_memory 100 64 0))));
    [reflexivity | vm_compute; reflexivity].
Defined.

(** C3 as stated fails: the record of [100] has the device pointer [65536],
    and [Erase(100)] calls no backend primitive. *)
Lemma Erase_releases_counterexample :
  (let* _ := Insert device_active 100 64 in
   Ptr release_build bump_new bump_alloc device_active 100) empty_world =
    Ok 65536 (mirrored 100 64) ∧
  ¬ Erase_releases device_active 100 (mirrored 100 64).
Proof.
  split; [vm_compute; reflexivity|].
  intros H.
  destruct (H (with_host false (with_d_ptr 65536 (new_memory 100 64 0))))
    as (w' & He & Hc); [vm_compute; reflexivity | vm_compute; lia |].
  vm_compute in He. injection He as <-. by vm_compute in Hc.
Qed.

Lemma Push_known_keeps_state_witness :
  Push release_build bump_new bump_alloc device_active 100 16
    (registered 100 64) =
    Ok tt (transition 100 (with_d_ptr 65536 (new_memory 100 64 0))
             [CuMemAlloc_call 64 65536; CuMemcpyHtoD_call 65536 100 16]
             (registered 100 64)) ∧
  resident (with_d_ptr 65536 (new_memory 100 64 0)) = HostValid.
Proof.
  apply (Push_known_keeps_state release_build bump_new bump_alloc device_active
           100 16 (registered 100 64) (new_memory 100 64 0));
    [reflexivity | vm_compute; reflexivity | simpl; lia].
Defined.

(** C4 as stated fails: after [Insert(100, 64)] the record is HostValid, and
    it still is after [Push(100, 64)] on the active device. *)
Lemma Push_makes_DeviceValid_counterexample :
  Insert device_active 100 64 empty_world = Ok 100 (registered 100 64) ∧
  ¬ Push_makes_DeviceValid release_build bump_new bump_alloc device_active
      100 64 (registered 100 64).
Proof.
  split; [vm_compute; reflexivity|].
  intros H.
  destruct (H (new_memory 100 64 0)) as (w' & m' & Hp & Hm' & _ & Hres);
    [vm_compute; reflexivity | simpl; lia |].
  vm_compute in Hp. injection Hp as <-.
  vm_compute in Hm'. injection Hm' as <-. discriminate Hres.
Qed.

Lemma Pull_known_witness :
  (∀ size, Pull release_build bump_new device_active 100 size
             (registered 100 64) = Ok tt (registered 100 64)) ∧
  Pull release_build bump_new device_active 100 0 (mirrored 100 64) =
    Ok tt (call (CuMemcpyDtoH_call 100 65536 64) (mirrored 100 64)).
Proof.
  split.
  - apply (Pull_known release_build bump_new device_active 100
             (registered 100 64) (new_memory 100 64 0) false);
      [reflexivity | vm_compute; reflexivity | reflexivity].
  - apply (Pull_known release_build bump_new device_active 100
             (mirrored 100 64)
             (with_host false (with_d_ptr 65536 (new_memory 100 64 0))) false);
      [reflexivity | vm_compute; reflexivity | reflexivity | reflexivity
      | (vm_compute; lia)..].
Defined.

(** C5 as stated fails: [Pull(100, 0)] on a DeviceValid record returns, after
    a copy of the 64 registered bytes. *)
Lemma Pull_zero_is_fatal_counterexample :
  Pull debug_build bump_new device_active 100 0 (mirrored 100 64) =
    Ok tt (call (CuMemcpyDtoH_call 100 65536 64) (mirrored 100 64)) ∧
  ¬ Pull_zero_is_fatal debug_build bump_new device_active 100 (mirrored 100 64).
Proof.
  split; [vm_compute; reflexivity|]. unfold Pull_zero_is_fatal.
  vm_compute. discriminate.
Qed.

Lemma memcpy_zero_witness :
  memcpy release_build bump_new bump_alloc dst_of dst_of mm_off 100 200 0 false
    (registered 100 64) = Ok 100 (registered 100 64).
Proof.
  apply (memcpy_zero release_build bump_new bump_alloc dst_of dst_of mm_off
           100 200 false (registered 100 64)).
  reflexivity.
Defined.

(** C9 as stated fails: on the active device [memcpy(100, 100, 0, false)]
    allocates the mirror of the HostValid buffer [100], copies its 64 bytes
    to the device and leaves the record DeviceValid. *)
Lemma memcpy_zero_is_noop_counterexample :
  memcpy release_build bump_new bump_alloc dst_of dst_of device_active
    100 100 0 false (registered 100 64) = Ok 100 (mirrored 100 64) ∧
  ¬ memcpy_zero_is_noop release_build bump_new bump_alloc dst_of dst_of
      device_active 100 100 false (registered 100 64).
Proof.
  split; [vm_compute; reflexivity|]. unfold memcpy_zero_is_noop.
  vm_compute. discriminate.
Qed.

Lemma Ptr_unknown_witness :
  (∃ msg, Ptr release_build bump_new bump_alloc device_active 500
            (registered 100 64) = Fatal msg (registered 100 64)) ∧
  Ptr release_build bump_new bump_alloc device_idle 500 (registered 100 64) =
    Ok 500 (registered 100 64).
Proof.
  split.
  - apply (Ptr_unknown release_build bump_new bump_alloc device_active 500
             (registered 100 64) (registered 100 64));
      [reflexivity | vm_compute; reflexivity | vm_compute; reflexivity
      | reflexivity].
  - apply (Ptr_unknown release_build bump_new bump_alloc device_idle 500
             (registered 100 64) (registered 100 64));
      [reflexivity | vm_compute; reflexivity | vm_compute; reflexivity
      | reflexivity].
Defined.

Lemma Ptr_twice_witness :
  let w1 := transition 100
              (with_host false
                 (with_d_ptr 65536 (with_aliases [4096] (new_memory 100 100 0))))
              [CuMemAlloc_call 100 65536; CuMemcpyHtoD_call 65536 100 100]
              aliased in
  Ptr debug_build bump_new bump_alloc device_active 140 w1 = Ok 65576 w1 ∧
  (copies (calls_since (registered 100 100) w1) ≤ 1)%nat.
Proof.
  apply (Ptr_twice debug_build bump_new bump_alloc device_active 140
           (registered 100 100)).
  vm_compute. reflexivity.
Defined.

(** C7, on the code. [Insert(100, 100)], [Ptr(140)], [Erase(100)] and
    [Insert(100, 100)] again leave [140] an interior pointer of a registered
    buffer that is no base, while [maps.aliases] still holds the entry made
    before the [Erase], whose [mem] points to the record that was erased.
    [Alias(140)] answers [true] from that entry, and [PtrAlias] then reads
    the state and the size through the dangling pointer: the call has no
    defined result, with the device in use or not and in either build, so
    [Ptr] returns no pointer value that a second call could repeat. *)
Lemma Ptr_through_stale_alias :
  (let* _ := Insert device_idle 100 100 in
   let* _ := Ptr release_build bump_new bump_alloc device_idle 140 in
   let* _ := Erase device_idle 100 in
   Insert device_idle 100 100) empty_world = Ok 100 reinserted ∧
  Known (maps reinserted) 140 = false ∧
  bytes <$> memories (maps reinserted) !! 100 = Some 100 ∧
  Alias release_build bump_new 140 reinserted = Ok true reinserted ∧
  Ptr release_build bump_new bump_alloc device_idle 140 reinserted =
    Undefined ∧
  Ptr release_build bump_new bump_alloc device_active 140 reinserted =
    Undefined ∧
  Ptr debug_build bump_new bump_alloc device_active 140 reinserted =
    Undefined.
Proof. split_and!; vm_compute; reflexivity. Qed.

(** C2, on the code. [Insert(100, 100)], a first resolution of [140] and
    [Erase(100)]: the loop of [Erase] erases the key [4096], the address of
    the alias object, and not [140]; the entry of [140] stays in
    [maps.aliases], and [Alias(140)] answers [true] from it although no
    buffer is registered any more. *)
Lemma Erase_leaves_alias_cached :
  Insert device_idle 100 100 empty_world = Ok 100 (registered 100 100) ∧
  Alias release_build bump_new 140 (registered 100 100) = Ok true aliased ∧
  Erase device_idle 100 aliased = Ok 100 stale ∧
  memories (maps stale) = ∅ ∧
  aliases (maps stale) !! 140 = Some 4096 ∧
  Alias release_build bump_new 140 stale = Ok true stale ∧
  ¬ Erase_drops_aliases device_idle 100 aliased.
Proof.
  split_and!; try (vm_compute; reflexivity).
  intros H.
  specialize (H (with_aliases [4096] (new_memory 100 100 0)) stale).
  specialize (H ltac:(vm_compute; reflexivity) ltac:(vm_compute; reflexivity)).
  specialize (H 140 4096 {| mem := {| ref_key := 100; ref_node := 0 |};
                            offset := 40 |}).
  specialize (H ltac:(vm_compute; reflexivity) ltac:(vm_compute; reflexivity)
                eq_refl).
  vm_compute in H. discriminate H.
Qed.

(** C8, on the code. [Insert(100, 100)], [Ptr(140)] and [Erase(100)] leave
    the entry of [140] in [maps.aliases]; [Insert(140, 10)] then registers a
    base that is a key of [maps.aliases], with an alias object whose owner no
    longer exists. *)
Lemma stale_alias_key_is_base :
  (let* _ := Insert device_idle 100 100 in
   Ptr release_build bump_new bump_alloc device_idle 140) empty_world =
    Ok 140 aliased ∧
  Erase device_idle 100 aliased = Ok 100 stale ∧
  Insert device_idle 140 10 stale = Ok 140 shadowed ∧
  Known (maps shadowed) 140 = true ∧
  aliases (maps shadowed) !! 140 = Some 4096 ∧
  ¬ alias_keys_apart shadowed.
Proof.
  split_and!; try (vm_compute; reflexivity).
  intros H. destruct (H 140 4096) as [Hm _]; [vm_compute; reflexivity|].
  vm_compute in Hm. discriminate Hm.
Qed.

(** ** The further properties on explicit inputs *)

Lemma Insert_registers_witness :
  ∃ w' m, Insert device_idle 100 64 empty_world = Ok 100 w' ∧
    memories (maps w') !! 100 = Some m ∧ Known (maps w') 100 = true ∧
    bytes m = 64 ∧ h_ptr m = 100 ∧ d_ptr m = 0 ∧ mem_aliases m = [] ∧
    resident m = HostValid ∧
    (∀ k, k ≠ 100 →
       memories (maps w') !! k = memories (maps empty_world) !! k) ∧
    aliases (maps w') = aliases (maps empty_world) ∧
    heap w' = heap empty_world ∧ trace w' = trace empty_world.
Proof.
  apply (Insert_registers device_idle 100 64 empty_world);
    [reflexivity | vm_compute; reflexivity].
Defined.

Lemma Insert_twice_fatal_witness :
  Insert device_idle 100 8 (registered 100 64) =
    Fatal "Trying to add an already present address!" (registered 100 64).
Proof.
  apply (Insert_twice_fatal device_idle 100 8 8 (registered 100 64));
    [reflexivity | vm_compute; reflexivity].
Defined.

Lemma Insert_Erase_round_trip_witness :
  ∃ w1 w2, Insert device_idle 300 16 (mirrored 100 64) = Ok 300 w1 ∧
    Erase device_idle 300 w1 = Ok 300 w2 ∧
    maps w2 = maps (mirrored 100 64) ∧ heap w2 = heap (mirrored 100 64) ∧
    trace w2 = trace (mirrored 100 64).
Proof.
  apply (Insert_Erase_round_trip device_idle 300 16 (mirrored 100 64));
    [reflexivity | vm_compute; reflexivity].
Defined.

Lemma Erase_removes_one_witness :
  Erase device_idle 7 (registered 100 64) =
    Fatal "Trying to erase an unknown pointer!" (registered 100 64).
Proof.
  apply (Erase_removes_one device_idle 7 (registered 100 64));
    [reflexivity | vm_compute; reflexivity].
Defined.

Lemma Alias_outside_witness :
  Alias debug_build bump_new 164 (registered 100 64) =
    Ok false (registered 100 64).
Proof.
  apply (Alias_outside debug_build bump_new 164 (registered 100 64));
    [vm_compute; reflexivity | vm_compute; reflexivity |].
  intros b m H. unfold registered in H. cbn [maps memories] in H.
  apply lookup_singleton_Some in H as [<- <-]. simpl. lia.
Defined.

Lemma Alias_new_inside_witness :
  ∃ a al m, aliases (maps aliased) !! 140 = Some a ∧
    heap aliased !! a = Some al ∧ deref (maps aliased) (mem al) = Some m ∧
    ref_key (mem al) + offset al = 140 ∧ 0 < offset al < bytes m.
Proof.
  apply (Alias_new_inside release_build bump_new 140 (registered 100 100)
           aliased); vm_compute; reflexivity.
Defined.

Lemma Alias_interior_witness :
  ∃ w' a al,
    Alias release_build bump_new 140 (registered 100 100) = Ok true w' ∧
    aliases (maps w') !! 140 = Some a ∧ heap w' !! a = Some al ∧
    ref_key (mem al) = 100 ∧ offset al = 140 - 100 ∧
    Alias release_build bump_new 140 w' = Ok true w'.
Proof.
  apply (Alias_interior release_build bump_new 100 (new_memory 100 100 0)
           140 (registered 100 100));
    [reflexivity | vm_compute; reflexivity | simpl; lia | lia |
    | vm_compute; reflexivity | vm_compute; reflexivity].
  intros b m H _. unfold registered in H. cbn [maps memories] in H.
  by apply lookup_singleton_Some in H as [<- _].
Defined.

Lemma Alias_on_base_witness :
  Alias debug_build bump_new 100 (registered 100 64) =
    Fatal "Ptr is an already known address!" (registered 100 64).
Proof.
  apply (Alias_on_base debug_build bump_new 100 (registered 100 64)
           (new_memory 100 64 0));
    [vm_compute; reflexivity | vm_compute; reflexivity | reflexivity].
Defined.

Lemma pass_through_witness :
  Ptr release_build bump_new bump_alloc mm_off 500 (mirrored 100 64) =
    Ok 500 (mirrored 100 64) ∧
  Push release_build bump_new bump_alloc mm_off 500 0 (mirrored 100 64) =
    Fatal "Push bytes==0" (mirrored 100 64).
Proof.
  split;
    apply (pass_through release_build bump_new bump_alloc mm_off 500 8
             (mirrored 100 64)); reflexivity.
Defined.

Lemma Occa_is_fatal_witness :
  Ptr release_build bump_new bump_alloc occa_device 100 (registered 100 64) =
    Fatal "Device::UsingOcca()" (registered 100 64).
Proof.
  apply (Occa_is_fatal release_build bump_new bump_alloc dst_of dst_of
           occa_device 100 100 8 false (registered 100 64)); reflexivity.
Defined.

Lemma Ptr_alias_four_way_witness :
  Ptr debug_build bump_new bump_alloc device_active 140 aliased =
    Ok 65576 aliased_mirrored ∧
  Ptr debug_build bump_new bump_alloc device_active 140 aliased_mirrored =
    Ok 65576 aliased_mirrored.
Proof.
  split.
  - apply (Ptr_alias_four_way debug_build bump_new bump_alloc device_active 140
             aliased 4096
             {| mem := {| ref_key := 100; ref_node := 0 |}; offset := 40 |}
             (with_aliases [4096] (new_memory 100 100 0)));
      evaluated.
  - apply (Ptr_alias_four_way debug_build bump_new bump_alloc device_active 140
             aliased_mirrored 4096
             {| mem := {| ref_key := 100; ref_node := 0 |}; offset := 40 |}
             (with_host false
                (with_d_ptr 65536
                   (with_aliases [4096] (new_memory 100 100 0)))));
      evaluated.
Defined.

Lemma Push_alias_copies_only_witness :
  Push release_build bump_new bump_alloc device_active 140 8 aliased =
    Ok tt (call (CuMemcpyHtoD_call 40 140 8) aliased).
Proof.
  apply (Push_alias_copies_only release_build bump_new bump_alloc
           device_active 140 8 aliased 4096
           {| mem := {| ref_key := 100; ref_node := 0 |}; offset := 40 |}
           (with_aliases [4096] (new_memory 100 100 0)));
    evaluated.
Defined.

Lemma Pull_alias_witness :
  Pull release_build bump_new device_active 140 0 aliased_mirrored =
    Ok tt (call (CuMemcpyDtoH_call 140 65576 0) aliased_mirrored).
Proof.
  apply (Pull_alias release_build bump_new device_active 140 0
           aliased_mirrored 4096
           {| mem := {| ref_key := 100; ref_node := 0 |}; offset := 40 |}
           (with_host false
              (with_d_ptr 65536 (with_aliases [4096] (new_memory 100 100 0)))));
    evaluated.
Defined.

Lemma Pull_then_Ptr_copies_twice_witness :
  (let* _ := Pull release_build bump_new device_idle 100 64 in
   Ptr release_build bump_new bump_alloc device_idle 100) (mirrored 100 64) =
    Ok 100 (transition 100
              (with_host true (with_host false
                 (with_d_ptr 65536 (new_memory 100 64 0))))
              [CuMemcpyDtoH_call 100 65536 64; CuMemcpyDtoH_call 100 65536 64]
              (mirrored 100 64)).
Proof.
  apply (Pull_then_Ptr_copies_twice release_build bump_new bump_alloc
           device_idle 100 64 (mirrored 100 64)
           (with_host false (with_d_ptr 65536 (new_memory 100 64 0))));
    [reflexivity | reflexivity | vm_compute; reflexivity | reflexivity
    | (vm_compute; lia)..].
Defined.

Lemma Ptr_device_then_host_witness :
  (let* _ := Ptr release_build bump_new bump_alloc device_active 100 in
   Ptr release_build bump_new bump_alloc device_idle 100) (registered 100 64) =
    Ok 100 (transition 100 (with_d_ptr 65536 (new_memory 100 64 0))
              [CuMemAlloc_call 64 65536; CuMemcpyHtoD_call 65536 100 64;
               CuMemcpyDtoH_call 100 65536 64] (registered 100 64)).
Proof.
  apply (Ptr_device_then_host release_build bump_new bump_alloc device_active
           device_idle 100 (registered 100 64) (new_memory 100 64 0));
    [reflexivity | reflexivity | reflexivity | reflexivity
    | vm_compute; reflexivity | reflexivity | (vm_compute; lia)..].
Defined.

Lemma memcpy_settled_witness :
  memcpy release_build bump_new bump_alloc dst_of dst_of device_active
    100 100 8 false (mirrored 100 64) =
    Ok 65536 (call (CuMemcpyDtoD_call 65536 65536 8) (mirrored 100 64)).
Proof.
  apply (memcpy_settled release_build bump_new bump_alloc dst_of dst_of
           device_active 100 100 8 false (mirrored 100 64)
           (with_host false (with_d_ptr 65536 (new_memory 100 64 0)))
           (with_host false (with_d_ptr 65536 (new_memory 100 64 0)))
           65536 65536);
    [reflexivity | vm_compute; reflexivity | vm_compute; reflexivity
    | right; simpl; split_and!; (reflexivity || lia)
    | right; simpl; split_and!; (reflexivity || lia)
    | lia].
Defined.

Lemma engine_keeps_aliases_anchored_witness : aliases_anchored aliased.
Proof.
  apply (engine_keeps_aliases_anchored release_build bump_new bump_alloc
           device_idle 140 8 (registered 100 100));
    [ intros p a H; vm_compute in H; discriminate
    | vm_compute; reflexivity
    | vm_compute; reflexivity ].
Defined.

Lemma ledger_keeps_aliases_anchored_witness : aliases_anchored stale.
Proof.
  apply (ledger_keeps_aliases_anchored device_idle 100 8 aliased);
    [|vm_compute; reflexivity].
  intros p a H. unfold aliased in H. cbn [maps aliases] in H.
  apply lookup_singleton_Some in H as [<- <-].
  eexists. split; [vm_compute; reflexivity | reflexivity].
Defined.

(** ** The edge-to-vertex tables and the choice of the kernel *)

Lemma length_bind_const {A B} (f : A → list B) (l : list A) k :
  (∀ x, x ∈ l → length (f x) = k) → length (l ≫= f) = (length l * k)%nat.
Proof.
  induction l as [|x l IH]; intros H; [done|].
  rewrite bind_cons, length_app, IH, H; simpl; [lia|by left|].
  intros y Hy. apply H. by right.
Qed.

Lemma div_base r c n : 0 ≤ r < n → (r + c * n) `div` n = c.
Proof. intros H. rewrite Z.div_add, Z.div_small by lia. lia. Qed.

Lemma Form2D_write o e v0 v1 :
  (e, (v0, v1)) ∈ Form2DEdgeToVertex 2 o ↔
  ∃ c i2 i1, 0 ≤ c < 2 ∧ 0 ≤ i2 < o + 1 ∧ 0 ≤ i1 < o ∧
    let ix := if c =? 0 then i1 else i2 in
    let iy := if c =? 0 then i2 else i1 in
    e = ix + iy * (if c =? 0 then o else o + 1) + c * o * (o + 1) ∧
    v0 = ix + iy * (o + 1) ∧
    v1 = (if c =? 0 then ix + 1 else ix) +
         (if c =? 1 then iy + 1 else iy) * (o + 1).
Proof.
  unfold Form2DEdgeToVertex. split.
  - intros H. apply list_elem_of_bind in H as (c & H & Hc).
    apply list_elem_of_bind in H as (i2 & H & Hi2).
    apply list_elem_of_bind in H as (i1 & H & Hi1).
    apply list_elem_of_singleton in H. injection H as -> -> ->.
    apply elem_of_seqZ in Hc, Hi2, Hi1. exists c, i2, i1.
    split_and!; try done; lia.
  - intros (c & i2 & i1 & Hc & Hi2 & Hi1 & -> & -> & ->).
    apply list_elem_of_bind. exists c. split; [|apply elem_of_seqZ; lia].
    apply list_elem_of_bind. exists i2. split; [|apply elem_of_seqZ; lia].
    apply list_elem_of_bind. exists i1. split; [|apply elem_of_seqZ; lia].
    by apply list_elem_of_singleton.
Qed.

(** X22. For an order of at most 32767, where no [int] of the function
    overflows, every write of [Form2DEdgeToVertex] stays inside the matrix
    and names two vertices of the (order+1) x (order+1) grid: the column is
    below [nedge], which is at most [INT_MAX], the vertices are below
    (order+1)^2, which is at most [INT_MAX] too, and the second vertex is
    the first plus (order+1)^c, where c, the direction of the edge, is the
    column divided by the number of edges of one direction. *)
Theorem Form2D_in_range o e v0 v1 :
  o ≤ 32767 →
  (e, (v0, v1)) ∈ Form2DEdgeToVertex 2 o →
  0 ≤ e < nedge 2 o ∧ nedge 2 o ≤ INT_MAX ∧
  0 ≤ v0 ∧ v1 < (o + 1) ^ 2 ∧ (o + 1) ^ 2 ≤ INT_MAX ∧
  v1 = v0 + (o + 1) ^ (e `div` (o * (o + 1))).
Proof.
  intros Hmax H. apply Form2D_write in H
    as (c & i2 & i1 & Hc & Hi2 & Hi1 & -> & -> & ->).
  unfold nedge, INT_MAX.
  replace (2 - 1) with 1 by lia. rewrite Z.pow_1_r, Z.pow_2_r.
  assert (o * (o + 1) ≤ 32767 * 32768) as Hsq1 by nia.
  assert ((o + 1) * (o + 1) ≤ 32768 * 32768) as Hsq2 by nia.
  set (r := (if c =? 0 then i1 else i2) +
            (if c =? 0 then i2 else i1) * (if c =? 0 then o else o + 1)).
  assert (0 ≤ r < o * (o + 1)) as Hr
    by (subst r; assert (c = 0 ∨ c = 1) as [-> | ->] by lia; simpl; nia).
  replace (r + c * o * (o + 1)) with (r + c * (o * (o + 1))) by lia.
  rewrite (div_base r c _ Hr). subst r.
  assert (c = 0 ∨ c = 1) as [-> | ->] by lia; simpl in *; split_and!; nia.
Qed.

(** X23. For an order from 0 to 32767, where no [int] of the function
    overflows, [Form2DEdgeToVertex] fills the matrix: [nedge] is at most
    [INT_MAX], and the columns written are the columns 0 .. nedge-1, each
    written once. *)
Theorem Form2D_columns o :
  0 ≤ o ≤ 32767 →
  nedge 2 o ≤ INT_MAX ∧
  (Form2DEdgeToVertex 2 o).*1 ≡ₚ seqZ 0 (nedge 2 o).
Proof.
  intros [Ho Hmax]. split.
  { unfold nedge, INT_MAX. replace (2 - 1) with 1 by lia. rewrite Z.pow_1_r.
    assert (o * (o + 1) ≤ 32767 * 32768) by nia. lia. }
  symmetry. apply submseteq_length_Permutation.
  - apply NoDup_submseteq; [apply NoDup_seqZ|].
    intros e He. apply elem_of_seqZ in He. unfold nedge in He.
    replace (2 - 1) with 1 in He by lia. rewrite Z.pow_1_r in He.
    apply list_elem_of_fmap.
    assert (0 < o) as Hpos by nia.
    destruct (decide (e < o * (o + 1))) as [Hlt|Hge].
    + exists (e, (e `mod` o + e `div` o * (o + 1),
                  e `mod` o + 1 + e `div` o * (o + 1))).
      split; [done|]. apply Form2D_write. exists 0, (e `div` o), (e `mod` o).
      pose proof (Z.mod_pos_bound e o Hpos). pose proof (Z.div_mod e o).
      assert (0 ≤ e `div` o < o + 1).
      { split; [apply Z.div_pos; lia|apply Z.div_lt_upper_bound; lia]. }
      simpl. split_and!; try done; try lia.
    + set (e' := e - o * (o + 1)).
      exists (e, (e' `mod` (o + 1) + e' `div` (o + 1) * (o + 1),
                  e' `mod` (o + 1) + (e' `div` (o + 1) + 1) * (o + 1))).
      split; [done|]. apply Form2D_write.
      exists 1, (e' `mod` (o + 1)), (e' `div` (o + 1)).
      assert (0 < o + 1) as Hp1 by lia.
      pose proof (Z.mod_pos_bound e' (o + 1) Hp1).
      pose proof (Z.div_mod e' (o + 1)).
      assert (0 ≤ e' `div` (o + 1) < o).
      { split; [apply Z.div_pos; lia|apply Z.div_lt_upper_bound; lia]. }
      simpl. split_and!; try done; try lia.
  - rewrite length_fmap, length_seqZ. unfold Form2DEdgeToVertex.
    rewrite (length_bind_const _ _ (Z.to_nat (o + 1) * Z.to_nat o)%nat).
    + rewrite length_seqZ. unfold nedge. replace (2 - 1) with 1 by lia.
      rewrite Z.pow_1_r. nia.
    + intros c _. rewrite (length_bind_const _ _ (Z.to_nat o)).
      * by rewrite length_seqZ.
      * intros i2 _. rewrite (length_bind_const _ _ 1%nat).
        -- rewrite length_seqZ. lia.
        -- done.
Qed.

Lemma cube_pos o i : 0 ≤ i < o * (o + 1) * (o + 1) → 0 < o.
Proof.
  intros Hi. destruct (decide (0 < o)) as [|Hn]; [done|]. exfalso.
  assert (0 ≤ (o + 1) * (o + 1)) by nia.
  assert (o * ((o + 1) * (o + 1)) ≤ 0) by nia.
  rewrite Z.mul_assoc in *. lia.
Qed.

Lemma cube_bound o :
  0 ≤ o ≤ 893 →
  3 * o * ((o + 1) * (o + 1)) ≤ 2147483647 ∧
  (o + 1) * (o + 1) * (o + 1) ≤ 2147483647.
Proof.
  intros [Ho Hmax]. assert ((o + 1) * (o + 1) ≤ 894 * 894) as Hsq by nia.
  assert (o * ((o + 1) * (o + 1)) ≤ 893 * (894 * 894)) by nia.
  assert ((o + 1) * ((o + 1) * (o + 1)) ≤ 894 * (894 * 894)) by nia.
  rewrite <- (Z.mul_assoc (o + 1)). lia.
Qed.

Lemma quot_rem_split i nx ny nz :
  0 < nx → 0 < ny → 0 ≤ i < nx * ny * nz →
  let a := Z.rem i nx in
  let b := Z.rem (Z.quot i nx) ny in
  let z := Z.quot (Z.quot i nx) ny in
  0 ≤ a < nx ∧ 0 ≤ b < ny ∧ 0 ≤ z < nz ∧ i = a + b * nx + z * nx * ny.
Proof.
  intros Hx Hy Hi. simpl.
  rewrite (Z.rem_mod_nonneg i nx), (Z.quot_div_nonneg i nx) by lia.
  assert (0 ≤ i `div` nx) by (apply Z.div_pos; lia).
  rewrite Z.rem_mod_nonneg, Z.quot_div_nonneg by lia.
  pose proof (Z.mod_pos_bound i nx Hx). pose proof (Z.div_mod i nx).
  pose proof (Z.mod_pos_bound (i `div` nx) ny Hy).
  pose proof (Z.div_mod (i `div` nx) ny).
  assert (0 ≤ (i `div` nx) `div` ny) by (apply Z.div_pos; lia).
  assert ((i `div` nx) `div` ny < nz).
  { apply Z.div_lt_upper_bound; [lia|]. apply Z.div_lt_upper_bound; lia. }
  split_and!; first [lia | nia].
Qed.

Lemma Form3D_write o x :
  x ∈ Form3DEdgeToVertex 3 o ↔
  ∃ c i, 0 ≤ c < 3 ∧ 0 ≤ i < o * (o + 1) * (o + 1) ∧
    x = (let nx := if c =? 0 then o else o + 1 in
         let ny := if c =? 1 then o else o + 1 in
         let ix := Z.rem i nx in
         let iy := Z.rem (Z.quot i nx) ny in
         let iz := Z.quot (Z.quot i nx) ny in
         (ix + iy * nx + iz * nx * ny + c * o * (o + 1) * (o + 1),
          (ix + iy * (o + 1) + iz * (o + 1) * (o + 1),
           (if c =? 0 then ix + 1 else ix) +
           (if c =? 1 then iy + 1 else iy) * (o + 1) +
           (if c =? 2 then iz + 1 else iz) * (o + 1) * (o + 1)))).
Proof.
  unfold Form3DEdgeToVertex. split.
  - intros H. apply list_elem_of_bind in H as (c & H & Hc).
    apply list_elem_of_bind in H as (i & H & Hi).
    apply list_elem_of_singleton in H. subst x.
    apply elem_of_seqZ in Hc, Hi. exists c, i. split_and!; try done; lia.
  - intros (c & i & Hc & Hi & ->).
    apply list_elem_of_bind. exists c. split; [|apply elem_of_seqZ; lia].
    apply list_elem_of_bind. exists i. split; [|apply elem_of_seqZ; lia].
    by apply list_elem_of_singleton.
Qed.

Lemma Form3D_row o c i :
  0 ≤ c < 3 → 0 ≤ i < o * (o + 1) * (o + 1) →
  let nx := if c =? 0 then o else o + 1 in
  let ny := if c =? 1 then o else o + 1 in
  let nz := if c =? 2 then o else o + 1 in
  let ix := Z.rem i nx in
  let iy := Z.rem (Z.quot i nx) ny in
  let iz := Z.quot (Z.quot i nx) ny in
  0 ≤ ix < nx ∧ 0 ≤ iy < ny ∧ 0 ≤ iz < nz ∧ i = ix + iy * nx + iz * nx * ny.
Proof.
  intros Hc Hi nx ny nz. pose proof (cube_pos o i Hi).
  apply quot_rem_split; subst nx ny nz.
  - destruct (c =? 0); lia.
  - destruct (c =? 1); lia.
  - assert (c = 0 ∨ c = 1 ∨ c = 2) as [-> | [-> | ->]] by lia; simpl; nia.
Qed.

(** X24. The same for [Form3DEdgeToVertex], for an order of at most 893,
    where no [int] of the function overflows, and the grid of (order+1)^3
    vertices; the column an iteration writes is its counter [i] plus c times
    the number of edges of one direction, the divisions and remainders
    notwithstanding. *)
Theorem Form3D_in_range o e v0 v1 :
  o ≤ 893 →
  (e, (v0, v1)) ∈ Form3DEdgeToVertex 3 o →
  0 ≤ e < nedge 3 o ∧ nedge 3 o ≤ INT_MAX ∧
  0 ≤ v0 ∧ v1 < (o + 1) ^ 3 ∧ (o + 1) ^ 3 ≤ INT_MAX ∧
  v1 = v0 + (o + 1) ^ (e `div` (o * (o + 1) * (o + 1))).
Proof.
  intros Hmax H. apply Form3D_write in H as (c & i & Hc & Hi & H).
  pose proof (cube_pos o i Hi) as Hpos.
  pose proof (cube_bound o (conj (Z.lt_le_incl _ _ Hpos) Hmax))
    as (Hcb1 & Hcb2).
  pose proof (Form3D_row o c i Hc Hi) as Hrow. simpl in Hrow, H.
  injection H as -> -> ->.
  destruct Hrow as (Hx & Hy & Hz & Hsum).
  unfold nedge, INT_MAX. replace (3 - 1) with 2 by lia.
  replace ((o + 1) ^ 3) with ((o + 1) * (o + 1) * (o + 1)) by ring.
  rewrite Z.pow_2_r.
  set (ix := Z.rem i _) in *. set (iy := Z.rem (Z.quot i _) _) in *.
  set (iz := Z.quot (Z.quot i _) _) in *.
  set (N := o * (o + 1) * (o + 1)) in *.
  assert ((ix + iy * (if c =? 0 then o else o + 1) +
           iz * (if c =? 0 then o else o + 1) * (if c =? 1 then o else o + 1) +
           c * o * (o + 1) * (o + 1)) `div` N = c) as ->.
  { rewrite <- Hsum. replace (i + c * o * (o + 1) * (o + 1)) with (i + c * N)
      by (subst N; lia). rewrite Z.div_add, Z.div_small by lia. lia. }
  rewrite <- Hsum. subst N.
  assert (c = 0 ∨ c = 1 ∨ c = 2) as [-> | [-> | ->]] by lia; simpl in *;
    split_and!; nia.
Qed.

(** X25. For an order from 0 to 893, where no [int] of the function
    overflows, [Form3DEdgeToVertex] fills the matrix: [nedge] is at most
    [INT_MAX], and the columns written are the columns 0 .. nedge-1, each
    written once. *)
Theorem Form3D_columns o :
  0 ≤ o ≤ 893 →
  nedge 3 o ≤ INT_MAX ∧
  (Form3DEdgeToVertex 3 o).*1 ≡ₚ seqZ 0 (nedge 3 o).
Proof.
  intros [Ho Hmax]. split.
  { unfold nedge, INT_MAX. replace (3 - 1) with 2 by lia. rewrite Z.pow_2_r.
    pose proof (cube_bound o (conj Ho Hmax)) as [? _]. lia. }
  symmetry. apply submseteq_length_Permutation.
  - apply NoDup_submseteq; [apply NoDup_seqZ|].
    intros e He. apply elem_of_seqZ in He. unfold nedge in He.
    replace (3 - 1) with 2 in He by lia. rewrite Z.pow_2_r in He.
    set (N := o * (o + 1) * (o + 1)).
    assert (0 < N) as HN by (subst N; lia).
    pose proof (Z.mod_pos_bound e N HN) as Hi. pose proof (Z.div_mod e N) as He'.
    assert (0 ≤ e `div` N < 3) as Hc.
    { split; [apply Z.div_pos; lia|apply Z.div_lt_upper_bound; subst N; lia]. }
    pose proof (Form3D_row o (e `div` N) (e `mod` N) Hc Hi) as Hrow.
    simpl in Hrow. destruct Hrow as (_ & _ & _ & Hsum).
    apply list_elem_of_fmap. eexists. split; [|apply Form3D_write].
    2:{ exists (e `div` N), (e `mod` N). split_and!; [lia..|reflexivity]. }
    simpl. fold N. lia.
  - rewrite length_fmap, length_seqZ. unfold Form3DEdgeToVertex.
    rewrite (length_bind_const _ _ (Z.to_nat (o * (o + 1) * (o + 1)))).
    + rewrite length_seqZ. unfold nedge. replace (3 - 1) with 2 by lia.
      rewrite Z.pow_2_r. nia.
    + intros c _. rewrite (length_bind_const _ _ 1%nat).
      * rewrite length_seqZ. lia.
      * done.
Qed.

(** X26. The kernel [LaunchDeviceKernel] picks is the 2D template for a mesh of
    dimension 2 and the 3D template for every other dimension; its template
    sizes are the default (0, 0) or the very [d] and [q] it is run with, and
    they are [d] and [q] exactly for dimension 2 or 3 with [d] from 2 to 5
    and [q] equal to [d] or [d + 1] (or when [d] and [q] are both 0). *)
Theorem LaunchDeviceKernel_ker_sizes dim d q :
  let k := LaunchDeviceKernel_ker dim d q in
  is_2D k = (dim =? 2) ∧
  (template_sizes k = (d, q) ∨ template_sizes k = (0, 0)) ∧
  (template_sizes k = (d, q) ↔
   (d = 0 ∧ q = 0) ∨
   ((dim = 2 ∨ dim = 3) ∧ 2 ≤ d ≤ 5 ∧ (q = d ∨ q = d + 1))).
Proof.
  unfold LaunchDeviceKernel_ker.
  destruct (dim =? 2) eqn:H2, (dim =? 3) eqn:H3; try lia;
    destruct (d =? 2) eqn:Hd2, (d =? 3) eqn:Hd3, (d =? 4) eqn:Hd4,
      (d =? 5) eqn:Hd5; try lia;
    destruct (q =? 2) eqn:Hq2, (q =? 3) eqn:Hq3, (q =? 4) eqn:Hq4,
      (q =? 5) eqn:Hq5, (q =? 6) eqn:Hq6; try lia; simpl;
    (split; [done|]); (split; [first [by left | by right | left; f_equal; lia]|]);
    split; intros H; try (injection H as ??); try lia; try (f_equal; lia).
Qed.

Lemma Form2D_in_range_witness :
  0 ≤ 7 < nedge 2 2 ∧ nedge 2 2 ≤ INT_MAX ∧
  0 ≤ 1 ∧ 4 < (2 + 1) ^ 2 ∧ (2 + 1) ^ 2 ≤ INT_MAX ∧
  4 = 1 + (2 + 1) ^ (7 `div` (2 * (2 + 1))).
Proof.
  apply (Form2D_in_range 2 7 1 4); [lia|].
  apply (list_elem_of_lookup_2 _ 8%nat). vm_compute. reflexivity.
Defined.

Lemma Form2D_columns_witness :
  nedge 2 32767 ≤ INT_MAX ∧
  (Form2DEdgeToVertex 2 2).*1 ≡ₚ seqZ 0 (nedge 2 2).
Proof.
  split; [apply (Form2D_columns 32767) | apply (Form2D_columns 2)]; lia.
Defined.

Lemma Form3D_in_range_witness :
  0 ≤ 9 < nedge 3 1 ∧ nedge 3 1 ≤ INT_MAX ∧
  0 ≤ 1 ∧ 5 < (1 + 1) ^ 3 ∧ (1 + 1) ^ 3 ≤ INT_MAX ∧
  5 = 1 + (1 + 1) ^ (9 `div` (1 * (1 + 1) * (1 + 1))).
Proof.
  apply (Form3D_in_range 1 9 1 5); [lia|].
  apply (list_elem_of_lookup_2 _ 9%nat). vm_compute. reflexivity.
Defined.

Lemma Form3D_columns_witness :
  nedge 3 893 ≤ INT_MAX ∧
  (Form3DEdgeToVertex 3 1).*1 ≡ₚ seqZ 0 (nedge 3 1).
Proof.
  split; [apply (Form3D_columns 893) | apply (Form3D_columns 1)]; lia.
Defined.
